(** * BarPepDetection: flank-delimited insert extraction

    A shallow embedding of the two detection routines of
    [BarPepDetection.py] ([barcode_detection] and
    [barcode_detection_margin]), of the Python string primitives they are
    written with ([str.find], [str.rfind], slicing, [str.upper]), of the
    construction of the flank variables from the command line and of the
    choice between the two routines.

    Reads are strings of one-byte characters; indices and counters are
    Python integers, hence [Z]; the value [-1] that [find] and [rfind]
    return for "no occurrence" is kept as it is, because the routines do
    arithmetic on it. *)

From Stdlib Require Import ZArith Ascii String List Bool Lia.
Import ListNotations.

Open Scope Z_scope.

(** ** Python strings *)

Module PyStr.

Definition str := list ascii.

(** A string literal as a [str]. *)
Definition py (s : string) : str := list_ascii_of_string s.

(** [len(s)], of a string or of a list. *)
Definition len {A : Type} (s : list A) : Z := Z.of_nat (length s).

(** Slice bounds: a negative bound counts from the end, and every bound is
    clamped to [0 .. len]. *)
Definition slice_index (n i : Z) : Z :=
  if i <? 0 then Z.max 0 (i + n) else Z.min i n.

(** [s[i:j]] *)
Definition slice (s : str) (i j : Z) : str :=
  let a := slice_index (len s) i in
  let b := slice_index (len s) j in
  firstn (Z.to_nat (b - a)) (skipn (Z.to_nat a) s).

(** [s.startswith(sub)] *)
Fixpoint startswith (sub s : str) : bool :=
  match sub, s with
  | [], _ => true
  | _ :: _, [] => false
  | a :: sub', b :: s' => Ascii.eqb a b && startswith sub' s'
  end.

(** The bounds of [find] and [rfind] (CPython's ADJUST_INDICES): [stop] is
    clamped to [0 .. len]; a negative [start] counts from the end and is
    clamped at [0], a [start] beyond the end is left as it is. *)
Definition adjust_start (n start : Z) : Z :=
  if start <? 0 then Z.max 0 (start + n) else start.

Definition adjust_stop (n stop : Z) : Z :=
  if n <? stop then n
  else if stop <? 0 then Z.max 0 (stop + n)
  else stop.

(** Offset of the first (resp. last) of the candidate positions
    [0 .. n-1] of [s] at which [sub] starts. *)
Fixpoint first_match (sub s : str) (n : nat) : option nat :=
  match n with
  | O => None
  | S n' =>
      if startswith sub s then Some O
      else option_map S (first_match sub (tl s) n')
  end.

Fixpoint last_match (sub s : str) (n : nat) : option nat :=
  match n with
  | O => None
  | S n' =>
      match last_match sub (tl s) n' with
      | Some k => Some (S k)
      | None => if startswith sub s then Some O else None
      end
  end.

(** The window [start, stop) of a search after adjustment, and the number
    of positions at which [sub] fits into it. An omitted [start] is [0],
    an omitted [stop] the end of the string. *)
Definition window (s : str) (start stop : option Z) : Z * Z :=
  (adjust_start (len s) (match start with Some a => a | None => 0 end),
   adjust_stop (len s) (match stop with Some e => e | None => len s end)).

Definition search (which : str -> str -> nat -> option nat)
    (s sub : str) (start stop : option Z) : Z :=
  let '(a, e) := window s start stop in
  if e - a <? len sub then -1
  else
    match which sub (skipn (Z.to_nat a) s) (Z.to_nat (e - a - len sub + 1)) with
    | Some k => a + Z.of_nat k
    | None => -1
    end.

(** [s.find(sub, start, stop)]: lowest index in [s] where [sub] is found
    within [s[start:stop]], [-1] when there is none. *)
Definition find := search first_match.

(** [s.rfind(sub, start, stop)]: highest such index, [-1] when there is
    none. *)
Definition rfind := search last_match.

(** [s.upper()], on one-byte characters: the letters [a .. z]. *)
Definition upper_char (c : ascii) : ascii :=
  let n := nat_of_ascii c in
  if (97 <=? n)%nat && (n <=? 122)%nat then ascii_of_nat (n - 32) else c.

Definition upper (s : str) : str := map upper_char s.

End PyStr.

Import PyStr.

(** ** The per-read scan *)

(** What the scan of one read ends in: the insert between the flanks, or
    no constant region. *)
Inductive MatchOutcome : Type :=
| Found (BCV : str)
| Missed.

(** The if/else cascade in the loop body of [barcode_detection], applied
    to the upper-cased read [ln]. [A] and [C] are the first and the last
    position of the right flank, [B] the first position of the left flank;
    [D], [F] and [E] are the same for the reverse-complement flanks. *)
Definition scan (ln BCV_left BCV_right BCV_left_revcomp BCV_right_revcomp : str)
    (BCV_size : Z) : MatchOutcome :=
  let A := find ln BCV_right None None in
  let B := find ln BCV_left None None in
  if A - B =? BCV_size + len BCV_left then
    Found (slice ln (B + len BCV_left) A)
  else
    let C := rfind ln BCV_right None None in
    if C - B =? BCV_size + len BCV_left then
      Found (slice ln (B + len BCV_left) C)
    else
      let D := find ln BCV_right_revcomp None None in
      let E := find ln BCV_left_revcomp None None in
      if D - E =? BCV_size + len BCV_left_revcomp then
        Found (slice ln (E + len BCV_left_revcomp) D)
      else
        let F := rfind ln BCV_right_revcomp None None in
        if F - E =? BCV_size + len BCV_left_revcomp then
          Found (slice ln (E + len BCV_left_revcomp) F)
        else Missed.

(** The same cascade in the loop body of [barcode_detection_margin], every
    search restricted by the expected insert position and the margin. *)
Definition scan_margin (ln BCV_left BCV_right : str) (BCV_loc BCV_margin : Z)
    (BCV_left_revcomp BCV_right_revcomp : str) (BCV_loc_revcomp BCV_size : Z)
    : MatchOutcome :=
  let A := find ln BCV_right (Some (BCV_loc - BCV_margin + BCV_size)) None in
  let B := find ln BCV_left (Some (BCV_loc - BCV_margin - len BCV_left)) None in
  if A - B =? BCV_size + len BCV_left then
    Found (slice ln (B + len BCV_left) A)
  else
    let C := rfind ln BCV_right (Some (BCV_loc - BCV_margin + BCV_size))
               (Some (BCV_loc + BCV_margin + BCV_size + len BCV_right)) in
    if C - B =? BCV_size + len BCV_left then
      Found (slice ln (B + len BCV_left) C)
    else
      let D := find ln BCV_right_revcomp
                 (Some (BCV_loc_revcomp - BCV_margin + BCV_size)) None in
      let E := find ln BCV_left_revcomp
                 (Some (BCV_loc_revcomp - BCV_margin - len BCV_left)) None in
      if D - E =? BCV_size + len BCV_left_revcomp then
        Found (slice ln (E + len BCV_left_revcomp) D)
      else
        let F := rfind ln BCV_right_revcomp
                   (Some (BCV_loc_revcomp - BCV_margin + BCV_size))
                   (Some (BCV_loc_revcomp + BCV_margin + BCV_size + len BCV_right)) in
        if F - E =? BCV_size + len BCV_left_revcomp then
          Found (slice ln (E + len BCV_left_revcomp) F)
        else Missed.

(** One orientation of the cascade of [scan]: steps 1 and 2 on the flanks
    [l] and [r]. *)
Definition scan_strand (ln l r : str) (BCV_size : Z) : option str :=
  let A := find ln r None None in
  let B := find ln l None None in
  if A - B =? BCV_size + len l then Some (slice ln (B + len l) A)
  else
    let C := rfind ln r None None in
    if C - B =? BCV_size + len l then Some (slice ln (B + len l) C)
    else None.

(** One orientation of the cascade of [scan_margin]: the same two steps
    with every search bounded; [wl] and [wr] are the flanks whose lengths
    enter the bounds. *)
Definition scan_margin_strand (ln l r : str) (loc BCV_margin BCV_size : Z)
    (wl wr : str) : option str :=
  let A := find ln r (Some (loc - BCV_margin + BCV_size)) None in
  let B := find ln l (Some (loc - BCV_margin - len wl)) None in
  if A - B =? BCV_size + len l then Some (slice ln (B + len l) A)
  else
    let C := rfind ln r (Some (loc - BCV_margin + BCV_size))
               (Some (loc + BCV_margin + BCV_size + len wr)) in
    if C - B =? BCV_size + len l then Some (slice ln (B + len l) C)
    else None.

(** ** The pass over a file *)

(** The four values a detection routine returns, in the order of its
    [return]: the extracted inserts, the number of reads, the number of
    reads without constant region, and the read lengths. *)
Record Report : Type := mkReport {
  result : list str;
  read_count : Z;
  no_constant_region : Z;
  size : list Z
}.

(** The values before the loop. *)
Definition empty_report : Report := mkReport [] 0 0 [].

(** Head of the loop body: [read_count += 1] and [size.append(len(line))].
    (The progress message printed every ten million reads changes none of
    the four values and is left out.) *)
Definition count_read (st : Report) (line : str) : Report :=
  mkReport (result st) (read_count st + 1) (no_constant_region st)
    (size st ++ [len line]).

(** Tail of the loop body: [result.append(BCV)] in the four matching
    branches, [no_constant_region += 1] in the last one. *)
Definition record_outcome (st : Report) (o : MatchOutcome) : Report :=
  match o with
  | Found BCV =>
      mkReport (result st ++ [BCV]) (read_count st) (no_constant_region st)
        (size st)
  | Missed =>
      mkReport (result st) (read_count st) (no_constant_region st + 1)
        (size st)
  end.

(** One iteration of the loop, given the scan of the upper-cased read. *)
Definition loop_body (scanner : str -> MatchOutcome) (st : Report)
    (line : str) : Report :=
  record_outcome (count_read st line) (scanner (upper line)).

Definition barcode_detection (reads : list str)
    (BCV_left BCV_right BCV_left_revcomp BCV_right_revcomp : str)
    (BCV_size : Z) : Report :=
  fold_left
    (loop_body (fun ln =>
       scan ln BCV_left BCV_right BCV_left_revcomp BCV_right_revcomp BCV_size))
    reads empty_report.

Definition barcode_detection_margin (reads : list str)
    (BCV_left BCV_right : str) (BCV_loc BCV_margin : Z)
    (BCV_left_revcomp BCV_right_revcomp : str)
    (BCV_loc_revcomp BCV_size : Z) : Report :=
  fold_left
    (loop_body (fun ln =>
       scan_margin ln BCV_left BCV_right BCV_loc BCV_margin
         BCV_left_revcomp BCV_right_revcomp BCV_loc_revcomp BCV_size))
    reads empty_report.

(** A detection routine, as a function of the reads, tallies every read
    exactly once: nothing is counted on an empty stream; one more read
    adds one to [read_count] and either appends exactly one insert to
    [result], leaving [no_constant_region], or adds one to
    [no_constant_region], leaving [result]; and after the pass the
    inserts and the misses add up to the reads. *)
Definition tallies_each_read_once (detect : list str -> Report) : Prop :=
  detect [] = empty_report
  /\ (forall reads line,
        read_count (detect (reads ++ [line])) = read_count (detect reads) + 1
        /\ ((exists ins,
               result (detect (reads ++ [line])) = result (detect reads) ++ [ins]
               /\ no_constant_region (detect (reads ++ [line]))
                  = no_constant_region (detect reads))
            \/ (result (detect (reads ++ [line])) = result (detect reads)
                /\ no_constant_region (detect (reads ++ [line]))
                   = no_constant_region (detect reads) + 1)))
  /\ (forall reads,
        read_count (detect reads) = len reads
        /\ len (result (detect reads)) + no_constant_region (detect reads)
           = read_count (detect reads)).

(** ** The script around the routines *)

Inductive Mode : Type := BC | PV.

(** The options of the command line that reach the routines, as typed by
    the user: [None] is an option that was not given. *)
Record CommandLine : Type := mkCommandLine {
  opt_mode : Mode;                  (* -a *)
  opt_BCVleft : str;                (* -l *)
  opt_BCVright : str;               (* -r *)
  opt_BCVloc : option Z;            (* -n *)
  opt_BCVmargin : option Z;         (* -m *)
  opt_BCVlocrevcomp : option Z;     (* -k *)
  opt_BCVsize : option Z            (* -s *)
}.

(** [args], the namespace that [ap.parse_args()] returns: an option that
    was not given is [None], except [BCVmargin], declared with
    [default=5]. *)
Record Args : Type := mkArgs {
  mode : Mode;
  BCVleft : str;
  BCVright : str;
  BCVloc : option Z;
  BCVmargin : Z;
  BCVlocrevcomp : option Z;
  BCVsize : option Z
}.

Definition parse_args (c : CommandLine) : Args :=
  mkArgs (opt_mode c) (opt_BCVleft c) (opt_BCVright c) (opt_BCVloc c)
    (match opt_BCVmargin c with Some m => m | None => 5 end)
    (opt_BCVlocrevcomp c) (opt_BCVsize c).

(** Truth value of a Python integer, and of a variable that holds an
    integer or [None]: [0] and [None] are false. *)
Definition truthy_int (z : Z) : bool := negb (z =? 0).

Definition truthy (v : option Z) : bool :=
  match v with
  | None => false
  | Some z => truthy_int z
  end.

Inductive Scanner : Type := Unwindowed | Windowed.

(** The test before the two calls, the same in mode BC and in mode PV:
    [if not BCV_loc or not BCV_margin or not BCV_loc_revcomp]. *)
Definition select_scanner (BCV_loc : option Z) (BCV_margin : Z)
    (BCV_loc_revcomp : option Z) : Scanner :=
  if negb (truthy BCV_loc) || negb (truthy_int BCV_margin)
     || negb (truthy BCV_loc_revcomp)
  then Unwindowed else Windowed.

(** How a pass over a file ends: with the four values, or with a Python
    exception. *)
Inductive PyError : Type := TypeError | IndexError.

Inductive Run : Type :=
| Returned (r : Report)
| Raised (e : PyError).

(** The routines as Python calls them, with variables that may hold
    [None]. Arithmetic on [None] raises [TypeError]; the routines do
    their first arithmetic on [BCV_size], [BCV_loc] and [BCV_loc_revcomp]
    while they scan the first read, so a file without reads returns. *)
Definition call_barcode_detection (reads : list str)
    (BCV_left BCV_right BCV_left_revcomp BCV_right_revcomp : str)
    (BCV_size : option Z) : Run :=
  match BCV_size with
  | Some n =>
      Returned (barcode_detection reads BCV_left BCV_right BCV_left_revcomp
                  BCV_right_revcomp n)
  | None =>
      match reads with
      | [] => Returned empty_report
      | _ :: _ => Raised TypeError
      end
  end.

Definition call_barcode_detection_margin (reads : list str)
    (BCV_left BCV_right : str) (BCV_loc : option Z) (BCV_margin : Z)
    (BCV_left_revcomp BCV_right_revcomp : str)
    (BCV_loc_revcomp BCV_size : option Z) : Run :=
  match BCV_loc, BCV_loc_revcomp, BCV_size with
  | Some l, Some k, Some n =>
      Returned (barcode_detection_margin reads BCV_left BCV_right l BCV_margin
                  BCV_left_revcomp BCV_right_revcomp k n)
  | _, _, _ =>
      match reads with
      | [] => Returned empty_report
      | _ :: _ => Raised TypeError
      end
  end.

Section Script.

(** Biopython's complement of a letter ([Bio.Seq]'s table), a library
    value the script is written over. *)
Variable complement : ascii -> ascii.

(** [str(Seq.Seq(s).reverse_complement())] *)
Definition reverse_complement (s : str) : str := rev (map complement s).

(** The script's global variables, set from [args] before either mode
    runs. *)
Record Flanks : Type := mkFlanks {
  BCV_left : str;
  BCV_right : str;
  BCV_loc : option Z;
  BCV_margin : Z;
  BCV_left_revcomp : str;
  BCV_right_revcomp : str;
  BCV_loc_revcomp : option Z;
  BCV_size : option Z
}.

Definition init_variables (args : Args) : Flanks :=
  let l := upper (BCVleft args) in
  let r := upper (BCVright args) in
  mkFlanks l r (BCVloc args) (BCVmargin args)
    (upper (reverse_complement r)) (upper (reverse_complement l))
    (BCVlocrevcomp args) (BCVsize args).

(** The search of one file, in either mode, once [BCV_size] is set. *)
Definition search_file (g : Flanks) (sz : option Z) (reads : list str) : Run :=
  match select_scanner (BCV_loc g) (BCV_margin g) (BCV_loc_revcomp g) with
  | Unwindowed =>
      call_barcode_detection reads (BCV_left g) (BCV_right g)
        (BCV_left_revcomp g) (BCV_right_revcomp g) sz
  | Windowed =>
      call_barcode_detection_margin reads (BCV_left g) (BCV_right g)
        (BCV_loc g) (BCV_margin g) (BCV_left_revcomp g) (BCV_right_revcomp g)
        (BCV_loc_revcomp g) sz
  end.

(** The script on one file of the directory. In mode BC the insert size
    is the length of the first key of the variants dictionary
    ([len(list(variants.keys())[0])], [IndexError] on an empty
    dictionary); in mode PV it is [args.BCVsize]. [variants] are the
    (barcode, variant) lines of the variants file in file order. *)
Definition run (args : Args) (variants : list (str * str)) (reads : list str)
    : Run :=
  let g := init_variables args in
  match mode args with
  | BC =>
      match variants with
      | [] => Raised IndexError
      | (barcode, _) :: _ => search_file g (Some (len barcode)) reads
      end
  | PV => search_file g (BCV_size g) reads
  end.

End Script.

(** Watson-Crick complement of the four bases, for the examples. *)
Definition dna_complement (c : ascii) : ascii :=
  match c with
  | "A" => "T" | "T" => "A" | "C" => "G" | "G" => "C"
  | "a" => "t" | "t" => "a" | "c" => "g" | "g" => "c"
  | _ => c
  end%char.

(** ** The specification's reading of the scanners *)

Module Spec.

(** [sub] occurs in [s] at index [i]. *)
Definition occurs_at (sub s : str) (i : Z) : Prop :=
  exists pre post, s = pre ++ sub ++ post /\ len pre = i.

(** "The index of the first occurrence of [sub] anywhere in the read",
    with the value [-1] when there is none. *)
Definition first_occurrence (sub s : str) (i : Z) : Prop :=
  (occurs_at sub s i /\ forall j, occurs_at sub s j -> i <= j)
  \/ (i = -1 /\ forall j, ~ occurs_at sub s j).

(** "The index of the last occurrence of [sub]". *)
Definition last_occurrence (sub s : str) (i : Z) : Prop :=
  (occurs_at sub s i /\ forall j, occurs_at sub s j -> j <= i)
  \/ (i = -1 /\ forall j, ~ occurs_at sub s j).

(** The first and the last occurrence of [sub] that lies within the
    positions [lo .. hi) of [s], [-1] when there is none. *)
Definition first_within (sub s : str) (lo hi i : Z) : Prop :=
  (lo <= i /\ i + len sub <= hi /\ occurs_at sub s i
   /\ forall j, lo <= j < i -> ~ occurs_at sub s j)
  \/ (i = -1 /\ forall j, lo <= j -> j + len sub <= hi -> ~ occurs_at sub s j).

Definition last_within (sub s : str) (lo hi i : Z) : Prop :=
  (lo <= i /\ i + len sub <= hi /\ occurs_at sub s i
   /\ forall j, i < j -> j + len sub <= hi -> ~ occurs_at sub s j)
  \/ (i = -1 /\ forall j, lo <= j -> j + len sub <= hi -> ~ occurs_at sub s j).

(** Steps 1 and 2 of the algorithm for one orientation, with flanks [l]
    and [r]: the insert the orientation yields, if any. *)
Inductive strand (ln l r : str) (insert_size : Z) : option str -> Prop :=
| first_wins A B :
    first_occurrence r ln A -> first_occurrence l ln B ->
    A - B = insert_size + len l ->
    strand ln l r insert_size (Some (slice ln (B + len l) A))
| last_wins A B C :
    first_occurrence r ln A -> first_occurrence l ln B ->
    A - B <> insert_size + len l ->
    last_occurrence r ln C ->
    C - B = insert_size + len l ->
    strand ln l r insert_size (Some (slice ln (B + len l) C))
| none_wins A B C :
    first_occurrence r ln A -> first_occurrence l ln B ->
    A - B <> insert_size + len l ->
    last_occurrence r ln C ->
    C - B <> insert_size + len l ->
    strand ln l r insert_size None.

(** The five steps: the forward orientation first, the reverse complement
    only when the forward orientation yields nothing, [Missed] when
    neither yields an insert. *)
Inductive scan_spec (ln left right left_rc right_rc : str) (insert_size : Z)
  : MatchOutcome -> Prop :=
| forward_found ins :
    strand ln left right insert_size (Some ins) ->
    scan_spec ln left right left_rc right_rc insert_size (Found ins)
| revcomp_found ins :
    strand ln left right insert_size None ->
    strand ln left_rc right_rc insert_size (Some ins) ->
    scan_spec ln left right left_rc right_rc insert_size (Found ins)
| nothing_found :
    strand ln left right insert_size None ->
    strand ln left_rc right_rc insert_size None ->
    scan_spec ln left right left_rc right_rc insert_size Missed.

(** Steps 1 and 2 of the windowed scanner for one orientation: the right
    flank is searched from [loc - margin + insert_size], the left flank
    from [loc - margin - len(l)], the last right flank within
    [[loc - margin + insert_size, loc + margin + insert_size + len(r))].
    [from] says where a search with a given computed start offset begins:
    the offset itself when it is handed to [find] as it is. *)
Definition strand_windowed (from : Z -> Z) (ln l r : str)
    (loc margin insert_size : Z) : option str :=
  let A := find ln r (Some (from (loc - margin + insert_size))) None in
  let B := find ln l (Some (from (loc - margin - len l))) None in
  if A - B =? insert_size + len l then Some (slice ln (B + len l) A)
  else
    let C := rfind ln r (Some (from (loc - margin + insert_size)))
               (Some (loc + margin + insert_size + len r)) in
    if C - B =? insert_size + len l then Some (slice ln (B + len l) C)
    else None.

(** The windowed scanner: the forward orientation with [left], [right] and
    [loc]; the reverse complement in the same way with [left_rc],
    [right_rc] and [loc_rc]. *)
Definition scan_windowed (from : Z -> Z) (ln left right : str)
    (loc margin : Z) (left_rc right_rc : str) (loc_rc insert_size : Z)
    : MatchOutcome :=
  match strand_windowed from ln left right loc margin insert_size with
  | Some ins => Found ins
  | None =>
      match strand_windowed from ln left_rc right_rc loc_rc margin insert_size with
      | Some ins => Found ins
      | None => Missed
      end
  end.

(** A search whose computed start lies before the read begins at the
    first position of the read. *)
Definition clamped (start : Z) : Z := Z.max 0 start.

(** The outcome the last-occurrence step gives on its own: [Found] for
    the span from the first [left] to the last [right] only if that span
    equals [insert_size + len(left)], otherwise [Missed]. *)
Definition last_occurrence_outcome (ln left right : str) (insert_size : Z)
    : MatchOutcome :=
  let B := find ln left None None in
  let C := rfind ln right None None in
  if C - B =? insert_size + len left then Found (slice ln (B + len left) C)
  else Missed.

(** A window field is present when a value was supplied for it, whatever
    the value. *)
Definition present (v : option Z) : bool :=
  match v with
  | Some _ => true
  | None => false
  end.

(** The windowed scanner exactly when all three window fields are
    present. *)
Definition select_by_presence (loc margin loc_rc : option Z) : Scanner :=
  if present loc && present margin && present loc_rc then Windowed
  else Unwindowed.

(** An invalid specification: [insert_size <= 0], or an empty flank. *)
Definition invalid_spec (left right : str) (insert_size : Z) : Prop :=
  insert_size <= 0 \/ left = [] \/ right = [].

End Spec.

(** ** Notions for the properties of a pass *)

(** The inserts a scanner finds in a stream of reads, in the order of the
    reads, and the reads in which it finds none. *)
Definition found_inserts (scanner : str -> MatchOutcome) (reads : list str)
    : list str :=
  flat_map (fun line =>
              match scanner (upper line) with
              | Found BCV => [BCV]
              | Missed => []
              end) reads.

Definition missed_reads (scanner : str -> MatchOutcome) (reads : list str)
    : list str :=
  filter (fun line =>
            match scanner (upper line) with
            | Found _ => false
            | Missed => true
            end) reads.

(** Two reports put together: lists one after the other, counters added. *)
Definition merge_reports (a b : Report) : Report :=
  mkReport (result a ++ result b) (read_count a + read_count b)
    (no_constant_region a + no_constant_region b) (size a ++ size b).

(** [ins] is a contiguous piece of [s]. *)
Definition substring_of (ins s : str) : Prop :=
  exists pre post, s = pre ++ ins ++ post.

(** The window of a search, beginning at [start] within the read and
    ending, if it has an end, before [stop], covers the index [i] that the
    search over the whole read returns: [i] is [-1], or the flank [sub]
    found at [i] lies in the window. *)
Definition covers (start : Z) (stop : option Z) (sub : str) (i : Z) : Prop :=
  i = -1
  \/ (0 <= start <= i
      /\ match stop with
         | Some e => i + len sub <= e
         | None => True
         end).

(** ** The quality plots: what they read from the file *)

(** The loop of [plot_seq_length_dist]: the lengths of the records, the
    loop left when the counter [c] exceeds [limit] after a record. *)
Fixpoint sizes_loop (records : list str) (limit c : Z) (sizes : list Z)
    : list Z :=
  match records with
  | [] => sizes
  | record :: rest =>
      let sizes := sizes ++ [len record] in
      let c := c + 1 in
      if limit <? c then sizes else sizes_loop rest limit c sizes
  end.

Definition seq_length_sizes (records : list str) (limit : Z) : list Z :=
  sizes_loop records limit 0 [].

(** The keys of [base_counts] in [plot_base_seq_content]. *)
Inductive Base : Type := base_A | base_T | base_G | base_C.

(** [base in base_counts], for a letter of a read. *)
Definition base_of (c : ascii) : option Base :=
  match c with
  | "A" => Some base_A
  | "T" => Some base_T
  | "G" => Some base_G
  | "C" => Some base_C
  | _ => None
  end%char.

Definition base_eqb (a b : Base) : bool :=
  match a, b with
  | base_A, base_A | base_T, base_T | base_G, base_G | base_C, base_C => true
  | _, _ => false
  end.

(** The dictionary [base_counts]: a list of counts for each of the four
    keys. *)
Definition BaseCounts : Type := Base -> list Z.

Definition no_counts : BaseCounts := fun _ => [].

Definition set_counts (bc : BaseCounts) (b : Base) (l : list Z) : BaseCounts :=
  fun b' => if base_eqb b' b then l else bc b'.

(** [l.extend([0] * (n - len(l)))] *)
Definition extend_to (l : list Z) (n : Z) : list Z :=
  l ++ repeat 0 (Z.to_nat (n - len l)).

(** [l[pos] += 1]; [None] is the [IndexError] of a position that is not
    in the list. *)
Fixpoint incr_at (l : list Z) (pos : nat) : option (list Z) :=
  match l, pos with
  | [], _ => None
  | x :: l', O => Some (x + 1 :: l')
  | x :: l', S pos' => option_map (cons x) (incr_at l' pos')
  end.

(** The inner loop [for pos, base in enumerate(seq)], from position
    [pos] on. *)
Fixpoint count_bases (bc : BaseCounts) (seq : str) (pos : nat)
    : option BaseCounts :=
  match seq with
  | [] => Some bc
  | base :: rest =>
      match base_of base with
      | None => count_bases bc rest (S pos)
      | Some b =>
          match incr_at (bc b) pos with
          | None => None
          | Some l => count_bases (set_counts bc b l) rest (S pos)
          end
      end
  end.

(** What the loop of [plot_base_seq_content] keeps. *)
Record Content : Type := mkContent {
  total_sequences : Z;
  total_bases : list Z;
  base_counts : BaseCounts
}.

(** One record: the bookkeeping, the lists made as long as the record if
    it is longer than the list of ["A"], and the letters counted. *)
Definition content_record (st : Content) (seq : str) : option Content :=
  let seq_len := len seq in
  let bc := base_counts st in
  let bc :=
    if len (bc base_A) <? seq_len
    then fun key => extend_to (bc key) seq_len
    else bc in
  match count_bases bc seq 0 with
  | None => None
  | Some bc' =>
      Some (mkContent (total_sequences st + 1) (total_bases st ++ [seq_len]) bc')
  end.

Fixpoint content_loop (records : list str) (limit c : Z) (st : Content)
    : option Content :=
  match records with
  | [] => Some st
  | seq :: rest =>
      match content_record st seq with
      | None => None
      | Some st' =>
          let c := c + 1 in
          if limit <? c then Some st' else content_loop rest limit c st'
      end
  end.

Definition base_seq_content (records : list str) (limit : Z) : option Content :=
  content_loop records limit 0 (mkContent 0 [] no_counts).

(** The records a loop with [limit] gets to: [limit + 1] of them, and
    the first one in any case. *)
Definition records_read (records : list str) (limit : Z) : list str :=
  firstn (Z.to_nat (Z.max 1 (limit + 1))) records.

(** The number of records with the letter of key [b] at position
    [pos]. *)
Definition letters_at (b : Base) (pos : nat) (records : list str) : Z :=
  len (filter (fun seq =>
                 match nth_error seq pos with
                 | Some c =>
                     match base_of c with
                     | Some b' => base_eqb b' b
                     | None => false
                     end
                 | None => false
                 end) records).

(** What the letters of [seq], placed from position [pos0] on, add to
    the count of key [b] at position [q]. *)
Definition hit (b : Base) (seq : str) (pos0 q : nat) : Z :=
  if (q <? pos0)%nat then 0
  else
    match nth_error seq (q - pos0) with
    | Some c =>
        match base_of c with
        | Some b' => if base_eqb b' b then 1 else 0
        | None => 0
        end
    | None => 0
    end.

(** The length of the longest record. *)
Definition longest (records : list str) : Z :=
  fold_right (fun seq m => Z.max (len seq) m) 0 records.

(** What the loop has in hand after the records [rs]. *)
Definition content_of (st : Content) (rs : list str) : Prop :=
  total_sequences st = len rs
  /\ total_bases st = map len rs
  /\ (forall b, len (base_counts st b) = longest rs)
  /\ forall b q, nth q (base_counts st b) 0 = letters_at b q rs.

(** ** The variants file and the contaminations file *)

(** White space of [str.strip()] and [str.split()] in ASCII text: tab,
    line feed, vertical tab, form feed, carriage return, the four
    separators [\x1c .. \x1f], and the space. *)
Definition is_space (c : ascii) : bool :=
  let n := nat_of_ascii c in
  ((9 <=? n)%nat && (n <=? 13)%nat) || ((28 <=? n)%nat && (n <=? 32)%nat).

Definition no_space (w : str) : bool := forallb (fun c => negb (is_space c)) w.

(** [s.lstrip()], [s.rstrip()], [s.strip()] *)
Fixpoint lstrip (s : str) : str :=
  match s with
  | [] => []
  | c :: s' => if is_space c then lstrip s' else s
  end.

Definition rstrip (s : str) : str := rev (lstrip (rev s)).

Definition strip (s : str) : str := rstrip (lstrip s).

(** [s.split()]: the maximal runs of characters that are not white
    space. [word] is the run being read. *)
Fixpoint split_from (s word : str) : list str :=
  match s with
  | [] =>
      match word with
      | [] => []
      | _ :: _ => [word]
      end
  | c :: s' =>
      if is_space c then
        match word with
        | [] => split_from s' []
        | _ :: _ => word :: split_from s' []
        end
      else split_from s' (word ++ [c])
  end.

Definition split (s : str) : list str := split_from s [].

(** [a == b] on strings *)
Fixpoint str_eqb (a b : str) : bool :=
  match a, b with
  | [], [] => true
  | x :: a', y :: b' => Ascii.eqb x y && str_eqb a' b'
  | _, _ => false
  end.

(** A dictionary from strings to strings, its items in insertion
    order. *)
Definition Dict : Type := list (str * str).

(** [d.get(k)], [k in d] and [d[k] = v]: a key that is there keeps its
    place, a new key goes to the end. *)
Fixpoint dict_get (d : Dict) (k : str) : option str :=
  match d with
  | [] => None
  | (k', v) :: d' => if str_eqb k k' then Some v else dict_get d' k
  end.

Definition dict_mem (d : Dict) (k : str) : bool :=
  match dict_get d k with
  | Some _ => true
  | None => false
  end.

Fixpoint dict_set (d : Dict) (k v : str) : Dict :=
  match d with
  | [] => [(k, v)]
  | (k', v') :: d' =>
      if str_eqb k k' then (k', v) :: d' else (k', v') :: dict_set d' k v
  end.

(** [dict(rows)], continued from [d]: every row has to be a sequence of
    two elements; [None] is the [ValueError] of a row of another
    length. *)
Fixpoint dict_of_rows (rows : list (list str)) (d : Dict) : option Dict :=
  match rows with
  | [] => Some d
  | [k; v] :: rest => dict_of_rows rest (dict_set d k v)
  | _ :: _ => None
  end.

(** [dict(line.strip().split() for line in temp if line.strip())], on
    the lines of the file. *)
Definition read_dict (lines : list str) : option Dict :=
  dict_of_rows
    (map (fun line => split (strip line))
       (filter (fun line =>
                  match strip line with
                  | [] => false
                  | _ :: _ => true
                  end) lines))
    [].

(** The loop that fills [contaminations]: for every key [c] of
    [contaminationsraw] that is not in [variants], the item
    [c : contaminationsraw[c]]. [None] is the [KeyError] of a key that
    [contaminationsraw] does not have. *)
Fixpoint contaminations_loop (keys : list str) (contaminationsraw variants : Dict)
    (contaminations : Dict) : option Dict :=
  match keys with
  | [] => Some contaminations
  | c :: rest =>
      if dict_mem variants c then
        contaminations_loop rest contaminationsraw variants contaminations
      else
        match dict_get contaminationsraw c with
        | None => None
        | Some v =>
            contaminations_loop rest contaminationsraw variants
              (dict_set contaminations c v)
        end
  end.

Definition remove_variants (contaminationsraw variants : Dict) : option Dict :=
  contaminations_loop (map fst contaminationsraw) contaminationsraw variants [].

(** A token: a string that is not empty and has no white space. *)
Definition token (w : str) : Prop := w <> [] /\ no_space w = true.

(** A line of a tab-delimited file: two fields and a line end. *)
Definition tab_line (item : str * str) : str :=
  fst item ++ [ascii_of_nat 9] ++ snd item ++ [ascii_of_nat 10].

(** The value of the last row of two fields whose first field is [k]:
    what a later row says about a key replaces what an earlier row
    said. *)
Fixpoint last_value (rows : list (list str)) (k : str) : option str :=
  match rows with
  | [] => None
  | row :: rest =>
      match last_value rest k with
      | Some v => Some v
      | None =>
          match row with
          | [k'; v] => if str_eqb k k' then Some v else None
          | _ => None
          end
      end
  end.

(** The script in mode BC on one file of the directory, from the lines
    of the variants file on; [None] is the [ValueError] of a variants
    file that [dict] does not take. *)
Definition run_BC_from_file (complement : ascii -> ascii) (args : Args)
    (variant_lines : list str) (reads : list str) : option Run :=
  match read_dict variant_lines with
  | None => None
  | Some variants => Some (run complement args variants reads)
  end.

(** ** The names of the output files *)

(** [s.split(sep)[0]] for a separator of one character: what stands
    before the first separator, and all of [s] if it has none. *)
Fixpoint first_field (sep : ascii) (s : str) : str :=
  match s with
  | [] => []
  | c :: s' => if Ascii.eqb c sep then [] else c :: first_field sep s'
  end.

(** [s.endswith("/")] *)
Definition ends_with_slash (s : str) : bool :=
  match rev s with
  | c :: _ => Ascii.eqb c "/"
  | [] => false
  end.

(** [s.startswith("/")] *)
Definition starts_with_slash (s : str) : bool :=
  match s with
  | c :: _ => Ascii.eqb c "/"
  | [] => false
  end.

(** [os.path.join(a, b)] of [posixpath] *)
Definition path_join (a b : str) : str :=
  if starts_with_slash b then b
  else
    match a with
    | [] => a ++ b
    | _ :: _ => if ends_with_slash a then a ++ b else a ++ py "/" ++ b
    end.

(** The files written for an input file [filename]: the log and the
    tables of the two modes, and the plots of [generate_plots]. *)
Definition log_output_file (out_dir filename : str) : str :=
  out_dir ++ first_field "." filename ++ py ".log.txt".

Definition variants_output_file (out_dir filename : str) : str :=
  out_dir ++ first_field "." filename ++ py "_Variants.csv".

Definition contaminations_output_file (out_dir filename : str) : str :=
  out_dir ++ first_field "." filename ++ py "_UnknownVariants.csv".

Definition PV_output_file (out_dir filename : str) : str :=
  out_dir ++ first_field "." filename ++ py "_PV.csv".

Definition plots_file (out_dir filename : str) : str :=
  let plot_dir := path_join out_dir (py "quality_plots") in
  first_field "." (path_join plot_dir filename) ++ py "_Plots.pdf".

(** [s] has no dot. *)
Definition no_dot (s : str) : bool :=
  forallb (fun c => negb (Ascii.eqb c ".")) s.

(** * Properties *)

(** ** Python strings *)

Lemma len_nonneg (s : str) : 0 <= len s.
Proof. unfold len. lia. Qed.

Lemma len_app (s t : str) : len (s ++ t) = len s + len t.
Proof. unfold len. rewrite length_app. lia. Qed.

Lemma len_nil_iff (s : str) : len s = 0 <-> s = [].
Proof.
  unfold len. destruct s as [|c s]; simpl; split; intros H;
    try reflexivity; try discriminate; lia.
Qed.

Lemma len_pos (s : str) : s <> [] -> 1 <= len s.
Proof.
  intros H. pose proof (len_nonneg s). pose proof (len_nil_iff s).
  destruct (Z.eq_dec (len s) 0); [tauto | lia].
Qed.

Lemma len_upper (s : str) : len (upper s) = len s.
Proof. unfold len, upper. now rewrite length_map. Qed.

(** [startswith] decides "[s] begins with [sub]". *)
Lemma startswith_iff (sub s : str) :
  startswith sub s = true <-> exists post, s = sub ++ post.
Proof.
  revert s. induction sub as [|a sub IH]; intros s; simpl.
  - split; [intros _; now exists s | reflexivity].
  - destruct s as [|b s].
    + split; [discriminate | intros [post H]; discriminate].
    + rewrite andb_true_iff, Ascii.eqb_eq, IH. split.
      * intros [-> [post ->]]. now exists post.
      * intros [post H]. injection H as -> ->. split; [reflexivity | now exists post].
Qed.

Lemma skipn_succ_tl (k : nat) (s : str) : skipn (S k) s = skipn k (tl s).
Proof. destruct s; simpl; [now rewrite skipn_nil | reflexivity]. Qed.

(** The first match is a match, lies among the candidates, and no
    candidate before it is a match. *)
Lemma first_match_some (sub : str) (n : nat) :
  forall (s : str) (k : nat),
    first_match sub s n = Some k ->
    (k < n)%nat /\ startswith sub (skipn k s) = true
    /\ forall j, (j < k)%nat -> startswith sub (skipn j s) = false.
Proof.
  induction n as [|n IH]; intros s k; simpl; [discriminate|].
  destruct (startswith sub s) eqn:Hs.
  - intros [= <-]. repeat split; [lia | exact Hs | intros j Hj; lia].
  - destruct (first_match sub (tl s) n) as [k'|] eqn:Hm; simpl; [|discriminate].
    intros [= <-]. destruct (IH _ _ Hm) as (Hlt & Hk & Hmin).
    repeat split; [lia | now rewrite skipn_succ_tl |].
    intros [|j] Hj; [exact Hs | rewrite skipn_succ_tl; apply Hmin; lia].
Qed.

Lemma first_match_none (sub : str) (n : nat) :
  forall (s : str),
    first_match sub s n = None ->
    forall j, (j < n)%nat -> startswith sub (skipn j s) = false.
Proof.
  induction n as [|n IH]; intros s; simpl; [intros _ j Hj; lia|].
  destruct (startswith sub s) eqn:Hs; [discriminate|].
  destruct (first_match sub (tl s) n) eqn:Hm; simpl; [discriminate|].
  intros _ [|j] Hj; [exact Hs | rewrite skipn_succ_tl; apply (IH _ Hm); lia].
Qed.

Lemma last_match_none (sub : str) (n : nat) :
  forall (s : str),
    last_match sub s n = None ->
    forall j, (j < n)%nat -> startswith sub (skipn j s) = false.
Proof.
  induction n as [|n IH]; intros s; simpl; [intros _ j Hj; lia|].
  destruct (last_match sub (tl s) n) eqn:Hm; [discriminate|].
  destruct (startswith sub s) eqn:Hs; [discriminate|].
  intros _ [|j] Hj; [exact Hs | rewrite skipn_succ_tl; apply (IH _ Hm); lia].
Qed.

(** The last match is a match, lies among the candidates, and no
    candidate after it is a match. *)
Lemma last_match_some (sub : str) (n : nat) :
  forall (s : str) (k : nat),
    last_match sub s n = Some k ->
    (k < n)%nat /\ startswith sub (skipn k s) = true
    /\ forall j, (k < j < n)%nat -> startswith sub (skipn j s) = false.
Proof.
  induction n as [|n IH]; intros s k; simpl; [discriminate|].
  destruct (last_match sub (tl s) n) as [k'|] eqn:Hm.
  - intros [= <-]. destruct (IH _ _ Hm) as (Hlt & Hk & Hmax).
    repeat split; [lia | now rewrite skipn_succ_tl |].
    intros [|j] Hj; [lia | rewrite skipn_succ_tl; apply Hmax; lia].
  - destruct (startswith sub s) eqn:Hs; [|discriminate].
    intros [= <-]. repeat split; [lia | exact Hs |].
    intros [|j] Hj; [lia|]. rewrite skipn_succ_tl.
    apply (last_match_none sub n _ Hm). lia.
Qed.

(** An occurrence at [i] is a match of [startswith] at [i]. *)
Lemma occurs_at_iff (sub s : str) (i : Z) :
  Spec.occurs_at sub s i
  <-> 0 <= i <= len s /\ startswith sub (skipn (Z.to_nat i) s) = true.
Proof.
  unfold Spec.occurs_at. split.
  - intros (pre & post & -> & <-). split.
    + rewrite len_app. pose proof (len_nonneg pre).
      pose proof (len_nonneg (sub ++ post)). lia.
    + unfold len. rewrite Nat2Z.id, skipn_app, skipn_all, Nat.sub_diag.
      simpl. apply startswith_iff. now exists post.
  - intros [Hi Hs]. apply startswith_iff in Hs. destruct Hs as [post Hs].
    exists (firstn (Z.to_nat i) s), post. split.
    + rewrite <- Hs. symmetry. apply firstn_skipn.
    + unfold len in *. rewrite length_firstn. lia.
Qed.

Lemma occurs_at_fits (sub s : str) (i : Z) :
  Spec.occurs_at sub s i -> 0 <= i /\ i + len sub <= len s.
Proof.
  intros (pre & post & -> & <-). rewrite !len_app.
  pose proof (len_nonneg pre). pose proof (len_nonneg post). lia.
Qed.

(** The adjusted window of a search lies within [0 .. len]. *)
Lemma window_bounds (s : str) (start stop : option Z) :
  0 <= fst (window s start stop) /\ 0 <= snd (window s start stop) <= len s.
Proof.
  pose proof (len_nonneg s) as Hn. unfold window, adjust_start, adjust_stop.
  simpl. split.
  - destruct start as [a|]; [|simpl; lia].
    destruct (Z.ltb_spec a 0); lia.
  - destruct stop as [e|].
    + destruct (Z.ltb_spec (len s) e); [lia|].
      destruct (Z.ltb_spec e 0); lia.
    + destruct (Z.ltb_spec (len s) (len s)); [lia|].
      destruct (Z.ltb_spec (len s) 0); lia.
Qed.

(** [find] returns the lowest index of an occurrence within the adjusted
    window, and [-1] when the window holds none. *)
Lemma find_within (s sub : str) (start stop : option Z) :
  Spec.first_within sub s (fst (window s start stop))
    (snd (window s start stop)) (find s sub start stop).
Proof.
  pose proof (window_bounds s start stop) as (Ha & He & Hel).
  unfold find, search. destruct (window s start stop) as [a e]. simpl in *.
  pose proof (len_nonneg sub) as Hm.
  destruct (Z.ltb_spec (e - a) (len sub)) as [Hlt|Hge].
  - right. split; [reflexivity | intros j Hj Hfit; lia].
  - destruct (first_match sub (skipn (Z.to_nat a) s)
                (Z.to_nat (e - a - len sub + 1))) as [k|] eqn:Hk.
    + apply first_match_some in Hk. destruct Hk as (Hlt & Hk & Hmin).
      rewrite skipn_skipn in Hk. left. repeat split; try lia.
      * apply occurs_at_iff. split; [lia|].
        replace (Z.to_nat (a + Z.of_nat k)) with (k + Z.to_nat a)%nat by lia.
        exact Hk.
      * intros j Hj Hocc. apply occurs_at_iff in Hocc. destruct Hocc as [_ Hocc].
        specialize (Hmin (Z.to_nat (j - a))). rewrite skipn_skipn in Hmin.
        replace (Z.to_nat (j - a) + Z.to_nat a)%nat with (Z.to_nat j) in Hmin by lia.
        rewrite Hmin in Hocc; [discriminate | lia].
    + right. split; [reflexivity|]. intros j Hj Hfit Hocc.
      apply occurs_at_iff in Hocc. destruct Hocc as [_ Hocc].
      pose proof (first_match_none _ _ _ Hk (Z.to_nat (j - a))) as Hnone.
      rewrite skipn_skipn in Hnone.
      replace (Z.to_nat (j - a) + Z.to_nat a)%nat with (Z.to_nat j) in Hnone by lia.
      rewrite Hnone in Hocc; [discriminate | lia].
Qed.

(** [rfind] returns the highest such index. *)
Lemma rfind_within (s sub : str) (start stop : option Z) :
  Spec.last_within sub s (fst (window s start stop))
    (snd (window s start stop)) (rfind s sub start stop).
Proof.
  pose proof (window_bounds s start stop) as (Ha & He & Hel).
  unfold rfind, search. destruct (window s start stop) as [a e]. simpl in *.
  pose proof (len_nonneg sub) as Hm.
  destruct (Z.ltb_spec (e - a) (len sub)) as [Hlt|Hge].
  - right. split; [reflexivity | intros j Hj Hfit; lia].
  - destruct (last_match sub (skipn (Z.to_nat a) s)
                (Z.to_nat (e - a - len sub + 1))) as [k|] eqn:Hk.
    + apply last_match_some in Hk. destruct Hk as (Hlt & Hk & Hmax).
      rewrite skipn_skipn in Hk. left. repeat split; try lia.
      * apply occurs_at_iff. split; [lia|].
        replace (Z.to_nat (a + Z.of_nat k)) with (k + Z.to_nat a)%nat by lia.
        exact Hk.
      * intros j Hj Hfit Hocc. apply occurs_at_iff in Hocc. destruct Hocc as [_ Hocc].
        specialize (Hmax (Z.to_nat (j - a))). rewrite skipn_skipn in Hmax.
        replace (Z.to_nat (j - a) + Z.to_nat a)%nat with (Z.to_nat j) in Hmax by lia.
        rewrite Hmax in Hocc; [discriminate | lia].
    + right. split; [reflexivity|]. intros j Hj Hfit Hocc.
      apply occurs_at_iff in Hocc. destruct Hocc as [_ Hocc].
      pose proof (last_match_none _ _ _ Hk (Z.to_nat (j - a))) as Hnone.
      rewrite skipn_skipn in Hnone.
      replace (Z.to_nat (j - a) + Z.to_nat a)%nat with (Z.to_nat j) in Hnone by lia.
      rewrite Hnone in Hocc; [discriminate | lia].
Qed.

(** A search returns [-1] or an index at which [sub] fits into [s]. *)
Lemma find_range (s sub : str) (start stop : option Z) :
  find s sub start stop = -1
  \/ 0 <= find s sub start stop /\ find s sub start stop + len sub <= len s.
Proof.
  pose proof (window_bounds s start stop) as (Ha & He & Hel).
  destruct (find_within s sub start stop) as [(H1 & H2 & _)|[H _]]; [right; lia | now left].
Qed.

Lemma rfind_range (s sub : str) (start stop : option Z) :
  rfind s sub start stop = -1
  \/ 0 <= rfind s sub start stop /\ rfind s sub start stop + len sub <= len s.
Proof.
  pose proof (window_bounds s start stop) as (Ha & He & Hel).
  destruct (rfind_within s sub start stop) as [(H1 & H2 & _)|[H _]]; [right; lia | now left].
Qed.

Lemma window_default (s : str) : window s None None = (0, len s).
Proof.
  pose proof (len_nonneg s). unfold window, adjust_start, adjust_stop. simpl.
  rewrite Z.ltb_irrefl. destruct (Z.ltb_spec (len s) 0); [lia | reflexivity].
Qed.

(** Without bounds, [find] is the index of the first occurrence anywhere
    in the string and [rfind] the index of the last one. *)
Lemma find_first_occurrence (s sub : str) :
  Spec.first_occurrence sub s (find s sub None None).
Proof.
  pose proof (find_within s sub None None) as H. rewrite window_default in H.
  simpl in H. destruct H as [(H0 & Hfit & Hocc & Hmin)|[Hr Hnone]].
  - left. split; [exact Hocc|]. intros j Hj.
    destruct (Z.lt_ge_cases j (find s sub None None)) as [Hlt|]; [|lia].
    exfalso. apply (Hmin j); [|exact Hj]. apply occurs_at_fits in Hj. lia.
  - right. split; [exact Hr|]. intros j Hj.
    pose proof (occurs_at_fits _ _ _ Hj). apply (Hnone j); [lia | lia | exact Hj].
Qed.

Lemma rfind_last_occurrence (s sub : str) :
  Spec.last_occurrence sub s (rfind s sub None None).
Proof.
  pose proof (rfind_within s sub None None) as H. rewrite window_default in H.
  simpl in H. destruct H as [(H0 & Hfit & Hocc & Hmax)|[Hr Hnone]].
  - left. split; [exact Hocc|]. intros j Hj.
    destruct (Z.lt_ge_cases (rfind s sub None None) j) as [Hlt|]; [|lia].
    exfalso. apply (Hmax j); [lia | | exact Hj]. apply occurs_at_fits in Hj. lia.
  - right. split; [exact Hr|]. intros j Hj.
    pose proof (occurs_at_fits _ _ _ Hj). apply (Hnone j); [lia | lia | exact Hj].
Qed.

(** The index of the first (last) occurrence is determined by the
    strings. *)
Lemma first_occurrence_unique (sub s : str) (i j : Z) :
  Spec.first_occurrence sub s i -> Spec.first_occurrence sub s j -> i = j.
Proof.
  intros [[Hi Hmi]|[-> Hni]] [[Hj Hmj]|[-> Hnj]].
  - specialize (Hmi j Hj). specialize (Hmj i Hi). lia.
  - elim (Hnj i Hi).
  - elim (Hni j Hj).
  - reflexivity.
Qed.

Lemma last_occurrence_unique (sub s : str) (i j : Z) :
  Spec.last_occurrence sub s i -> Spec.last_occurrence sub s j -> i = j.
Proof.
  intros [[Hi Hmi]|[-> Hni]] [[Hj Hmj]|[-> Hnj]].
  - specialize (Hmi j Hj). specialize (Hmj i Hi). lia.
  - elim (Hnj i Hi).
  - elim (Hni j Hj).
  - reflexivity.
Qed.

(** A slice between two indices of the string, in order, has their
    distance as its length. *)
Lemma slice_length (s : str) (i j : Z) :
  0 <= i <= j -> j <= len s -> len (slice s i j) = j - i.
Proof.
  intros Hij Hj. unfold slice, slice_index.
  destruct (Z.ltb_spec i 0); [lia|]. destruct (Z.ltb_spec j 0); [lia|].
  unfold len in *. rewrite length_firstn, length_skipn. lia.
Qed.

(** ** Examples *)

Example find_ex1 : find (py "GATCAAAACCGG") (py "CCGG") None None = 8.
Proof. reflexivity. Qed.

Example find_ex2 : find (py "GATCAAAACCGG") (py "GATC") (Some (-5)) None = -1.
Proof. reflexivity. Qed.

Example rfind_ex1 :
  rfind (py "GATCAAAACCGGTTTTGATCAAAACCGG") (py "CCGG") None None = 24.
Proof. reflexivity. Qed.

Example rfind_ex2 : rfind (py "ACGT") (py "") None None = 4.
Proof. reflexivity. Qed.

Example slice_ex1 : slice (py "GATCAAAACCGG") 4 8 = py "AAAA".
Proof. reflexivity. Qed.

Example slice_ex2 : slice (py "GATCAAAACCGG") (-3) 100 = py "CGG".
Proof. reflexivity. Qed.

(** Scenario A of the specification, and the same insert read from the
    other strand. *)
Example scan_scenario_A :
  scan (py "GATCAAAACCGG") (py "GATC") (py "CCGG") (py "CCGG") (py "GATC") 4
  = Found (py "AAAA").
Proof. reflexivity. Qed.

Example scan_reverse_strand :
  scan (py "TTGGTTCACAGTCAA") (py "GAC") (py "AACC")
    (upper (reverse_complement dna_complement (py "AACC")))
    (upper (reverse_complement dna_complement (py "GAC"))) 4
  = Found (py "CACA").
Proof. reflexivity. Qed.

Example scan_neither_strand :
  scan (py "ACACACACACAC") (py "GATC") (py "CCGG") (py "CCGG") (py "GATC") 4
  = Missed.
Proof. reflexivity. Qed.

(** ** The unwindowed scan *)

Lemma scan_by_strands (ln l r lrc rrc : str) (n : Z) :
  scan ln l r lrc rrc n =
  match scan_strand ln l r n with
  | Some ins => Found ins
  | None =>
      match scan_strand ln lrc rrc n with
      | Some ins => Found ins
      | None => Missed
      end
  end.
Proof.
  unfold scan, scan_strand.
  destruct (_ - _ =? n + len l); [reflexivity|].
  destruct (_ - _ =? n + len l); [reflexivity|].
  destruct (_ - _ =? n + len lrc); [reflexivity|].
  destruct (_ - _ =? n + len lrc); reflexivity.
Qed.

Lemma scan_strand_spec (ln l r : str) (n : Z) :
  Spec.strand ln l r n (scan_strand ln l r n).
Proof.
  unfold scan_strand.
  pose proof (find_first_occurrence ln r) as HA.
  pose proof (find_first_occurrence ln l) as HB.
  pose proof (rfind_last_occurrence ln r) as HC.
  destruct (Z.eqb_spec (find ln r None None - find ln l None None) (n + len l)) as [H1|H1].
  - now apply Spec.first_wins.
  - destruct (Z.eqb_spec (rfind ln r None None - find ln l None None) (n + len l)) as [H2|H2].
    + now apply Spec.last_wins with (A := find ln r None None).
    + now apply Spec.none_wins with (A := find ln r None None)
        (B := find ln l None None) (C := rfind ln r None None).
Qed.

Lemma strand_unique (ln l r : str) (n : Z) (o : option str) :
  Spec.strand ln l r n o -> o = scan_strand ln l r n.
Proof.
  pose proof (find_first_occurrence ln r) as HA.
  pose proof (find_first_occurrence ln l) as HB.
  pose proof (rfind_last_occurrence ln r) as HC.
  intros H. unfold scan_strand.
  destruct H as [A B H1 H2 He | A B C H1 H2 Hn H3 He | A B C H1 H2 Hn H3 Hn'];
    rewrite <- (first_occurrence_unique _ _ _ _ H1 HA),
            <- (first_occurrence_unique _ _ _ _ H2 HB);
    try rewrite <- (last_occurrence_unique _ _ _ _ H3 HC).
  - apply Z.eqb_eq in He. now rewrite He.
  - apply Z.eqb_neq in Hn. apply Z.eqb_eq in He. now rewrite Hn, He.
  - apply Z.eqb_neq in Hn. apply Z.eqb_neq in Hn'. now rewrite Hn, Hn'.
Qed.

(** C1. For every read and every flank specification the unwindowed
    scanner of [barcode_detection] is the five-step cascade in strict
    precedence: the first occurrence [A] of [right] against the first
    occurrence [B] of [left]; else the last occurrence [C] of [right]
    against [B]; else the same two steps on [right_rc] and [left_rc]; else
    [Missed]. The scan yields the outcome of the first step whose equality
    [_ - _ = insert_size + len(left)] holds, with the substring between
    [B + len(left)] and the right index, and it yields nothing else. *)
Theorem scan_is_five_step_cascade
    (ln left right left_rc right_rc : str) (insert_size : Z) :
  Spec.scan_spec ln left right left_rc right_rc insert_size
    (scan ln left right left_rc right_rc insert_size)
  /\ forall out : MatchOutcome,
       Spec.scan_spec ln left right left_rc right_rc insert_size out
       <-> out = scan ln left right left_rc right_rc insert_size.
Proof.
  assert (Hspec : Spec.scan_spec ln left right left_rc right_rc insert_size
                    (scan ln left right left_rc right_rc insert_size)).
  { rewrite scan_by_strands.
    pose proof (scan_strand_spec ln left right insert_size) as Hf.
    pose proof (scan_strand_spec ln left_rc right_rc insert_size) as Hr.
    destruct (scan_strand ln left right insert_size) as [ins|].
    - now apply Spec.forward_found.
    - destruct (scan_strand ln left_rc right_rc insert_size) as [ins|].
      + now apply Spec.revcomp_found.
      + now apply Spec.nothing_found. }
  split; [exact Hspec|]. intros out. split; [|intros ->; exact Hspec].
  intros H. rewrite scan_by_strands.
  destruct H as [ins Hf | ins Hf Hr | Hf Hr];
    apply strand_unique in Hf; try apply strand_unique in Hr.
  - now rewrite <- Hf.
  - now rewrite <- Hf, <- Hr.
  - now rewrite <- Hf, <- Hr.
Qed.

(** When the equality of the first step holds, its insert is the outcome,
    wherever the right flank occurs last. *)
Lemma first_step_wins (ln l r lrc rrc : str) (n : Z) :
  find ln r None None - find ln l None None = n + len l ->
  scan ln l r lrc rrc n
  = Found (slice ln (find ln l None None + len l) (find ln r None None)).
Proof.
  intros H. unfold scan. apply Z.eqb_eq in H. now rewrite H.
Qed.

(** ** Matches between flanks that are both there *)

(** When the left flank is found and the equality of the first step
    holds, the read is [pre ++ left ++ insert ++ right ++ post] with the
    left flank at its first occurrence, and the insert is what the scan
    returns. *)
Lemma first_step_between_flanks (ln l r lrc rrc : str) (n : Z) :
  find ln l None None <> -1 -> 0 <= n ->
  find ln r None None - find ln l None None = n + len l ->
  exists pre ins post,
    ln = pre ++ l ++ ins ++ r ++ post
    /\ len pre = find ln l None None
    /\ len ins = n
    /\ scan ln l r lrc rrc n = Found ins.
Proof.
  intros HB Hn He. rewrite (first_step_wins _ _ _ _ _ _ He).
  pose proof (len_nonneg l) as Hl.
  destruct (find_first_occurrence ln l) as [[Hoccl _]|[HB' _]]; [|contradiction].
  destruct (find_first_occurrence ln r) as [[Hoccr _]|[HA' _]].
  2:{ pose proof (occurs_at_fits _ _ _ Hoccl). lia. }
  set (A := find ln r None None) in *. set (B := find ln l None None) in *.
  pose proof (occurs_at_fits _ _ _ Hoccl) as [HB0 _].
  pose proof (occurs_at_fits _ _ _ Hoccr) as [_ HAfit].
  pose proof (len_nonneg r) as Hr.
  destruct Hoccl as (pre1 & post1 & E1 & L1).
  destruct Hoccr as (pre2 & post2 & E2 & L2).
  set (p := Z.to_nat (B + len l)).
  assert (Hp : (p <= length pre2)%nat) by (unfold len in *; lia).
  assert (Hpre : firstn p pre2 = pre1 ++ l).
  { assert (H : firstn p ln = pre1 ++ l).
    { rewrite E1, app_assoc, firstn_app.
      replace (p - length (pre1 ++ l))%nat with 0%nat
        by (rewrite length_app; unfold len in *; lia).
      rewrite firstn_all2 by (rewrite length_app; unfold len in *; lia).
      simpl. now rewrite app_nil_r. }
    rewrite <- H, E2, firstn_app.
    replace (p - length pre2)%nat with 0%nat by lia.
    simpl. now rewrite app_nil_r. }
  assert (Hslice : slice ln (B + len l) A = skipn p pre2).
  { unfold slice, slice_index.
    destruct (Z.ltb_spec (B + len l) 0); [lia|].
    destruct (Z.ltb_spec A 0); [lia|].
    rewrite !Z.min_l by lia. fold p.
    rewrite E2, skipn_app.
    replace (p - length pre2)%nat with 0%nat by lia. simpl.
    rewrite firstn_app, firstn_all2 by (rewrite length_skipn; unfold len in *; lia).
    replace (Z.to_nat (A - (B + len l)) - length (skipn p pre2))%nat with 0%nat
      by (rewrite length_skipn; unfold len in *; lia).
    simpl. now rewrite app_nil_r. }
  exists pre1, (skipn p pre2), post2. repeat split.
  - rewrite E2 at 1. rewrite <- (firstn_skipn p pre2) at 1. rewrite Hpre.
    now rewrite <- !app_assoc.
  - exact L1.
  - unfold len in *. rewrite length_skipn. lia.
  - now rewrite Hslice.
Qed.

(** When the left flank is absent and the right flank first occurs at
    index [insert_size + len(left) - 1], the first step takes the
    [insert_size] characters before the right flank as the insert. *)
Lemma absent_left_flank_hazard (ln l r lrc rrc : str) (n : Z) :
  find ln l None None = -1 ->
  find ln r None None = n + len l - 1 ->
  scan ln l r lrc rrc n = Found (slice ln (len l - 1) (n + len l - 1)).
Proof.
  intros HB HA. rewrite first_step_wins; rewrite HA, HB; [|lia].
  f_equal. f_equal. lia.
Qed.

(** ** The length of an extracted insert *)

(** Whatever index a search returned for the left flank ([Y], possibly
    [-1]) and for the right flank ([X]), if the equality of a step holds
    for a positive insert size and a non-empty left flank, the slice taken
    by the step has the insert size as its length. *)
Lemma step_slice_length (ln l : str) (X Y n : Z) :
  (Y = -1 \/ 0 <= Y) ->
  (X = -1 \/ 0 <= X /\ X <= len ln) ->
  l <> [] -> 0 < n ->
  X - Y = n + len l ->
  len (slice ln (Y + len l) X) = n.
Proof.
  intros HY HX Hl Hn He. apply len_pos in Hl.
  rewrite slice_length; lia.
Qed.

Lemma find_index (s sub : str) (start stop : option Z) :
  find s sub start stop = -1 \/ 0 <= find s sub start stop.
Proof. destruct (find_range s sub start stop); [now left | right; lia]. Qed.

Lemma find_index_le (s sub : str) (start stop : option Z) :
  find s sub start stop = -1
  \/ 0 <= find s sub start stop /\ find s sub start stop <= len s.
Proof.
  pose proof (len_nonneg sub).
  destruct (find_range s sub start stop); [now left | right; lia].
Qed.

Lemma rfind_index_le (s sub : str) (start stop : option Z) :
  rfind s sub start stop = -1
  \/ 0 <= rfind s sub start stop /\ rfind s sub start stop <= len s.
Proof.
  pose proof (len_nonneg sub).
  destruct (rfind_range s sub start stop); [now left | right; lia].
Qed.

Lemma scan_found_length (ln l r lrc rrc ins : str) (n : Z) :
  l <> [] -> lrc <> [] -> 0 < n ->
  scan ln l r lrc rrc n = Found ins -> len ins = n.
Proof.
  intros Hl Hlrc Hn. unfold scan.
  repeat match goal with
         | |- context [?a - ?b =? ?c] => destruct (Z.eqb_spec (a - b) c)
         end;
    intros [= <-];
    apply step_slice_length;
    auto using find_index, find_index_le, rfind_index_le.
Qed.

Lemma scan_margin_found_length (ln l r lrc rrc ins : str) (loc margin loc_rc n : Z) :
  l <> [] -> lrc <> [] -> 0 < n ->
  scan_margin ln l r loc margin lrc rrc loc_rc n = Found ins -> len ins = n.
Proof.
  intros Hl Hlrc Hn. unfold scan_margin.
  repeat match goal with
         | |- context [?a - ?b =? ?c] => destruct (Z.eqb_spec (a - b) c)
         end;
    intros [= <-];
    apply step_slice_length;
    auto using find_index, find_index_le, rfind_index_le.
Qed.

Lemma len_reverse_complement (complement : ascii -> ascii) (s : str) :
  len (reverse_complement complement s) = len s.
Proof. unfold len, reverse_complement. now rewrite length_rev, length_map. Qed.

Lemma upper_nonempty (s : str) : s <> [] -> upper s <> [].
Proof. destruct s; [congruence | discriminate]. Qed.

Lemma reverse_complement_nonempty (complement : ascii -> ascii) (s : str) :
  s <> [] -> reverse_complement complement s <> [].
Proof.
  intros H E. apply len_nil_iff in E. rewrite len_reverse_complement in E.
  now apply len_nil_iff in E.
Qed.

(** C3. For every read and every flank specification built by the script
    from non-empty [left] and [right] flanks, with [insert_size > 0]: when
    the unwindowed or the windowed scanner returns [Found insert], the
    insert has length [insert_size], whichever of the forward and
    reverse-complement steps found it. *)
Theorem found_insert_has_insert_size
    (complement : ascii -> ascii) (args : Args) (ln ins : str)
    (loc margin loc_rc insert_size : Z) :
  BCVleft args <> [] -> BCVright args <> [] -> 0 < insert_size ->
  scan ln (BCV_left (init_variables complement args))
       (BCV_right (init_variables complement args))
       (BCV_left_revcomp (init_variables complement args))
       (BCV_right_revcomp (init_variables complement args))
       insert_size = Found ins
  \/ scan_margin ln (BCV_left (init_variables complement args))
       (BCV_right (init_variables complement args)) loc margin
       (BCV_left_revcomp (init_variables complement args))
       (BCV_right_revcomp (init_variables complement args))
       loc_rc insert_size = Found ins ->
  len ins = insert_size.
Proof.
  intros Hl Hr Hn. simpl.
  assert (Hl' : upper (BCVleft args) <> []) by now apply upper_nonempty.
  assert (Hlrc : upper (reverse_complement complement (upper (BCVright args))) <> []).
  { now apply upper_nonempty, reverse_complement_nonempty, upper_nonempty. }
  intros [H|H].
  - now apply scan_found_length in H.
  - now apply scan_margin_found_length in H.
Qed.

(** The scenario of the specification: flanks [GATC] and [CCGG], insert
    size 4, a read found by the forward first-occurrence step. *)
Lemma found_insert_has_insert_size_witness :
  len (py "AAAA") = 4.
Proof.
  apply (found_insert_has_insert_size dna_complement
           (mkArgs PV (py "GATC") (py "CCGG") None 5 None (Some 4))
           (py "GATCAAAACCGG") (py "AAAA") 0 5 0 4).
  - discriminate.
  - discriminate.
  - lia.
  - left. reflexivity.
Defined.

(** ** The pass over the reads *)

Section Pass.

Variable scanner : str -> MatchOutcome.

Let pass (reads : list str) (st : Report) : Report :=
  fold_left (loop_body scanner) reads st.

(** One iteration counts the read once and either appends one insert or
    counts one miss. *)
Lemma loop_body_tally (st : Report) (line : str) :
  read_count (loop_body scanner st line) = read_count st + 1
  /\ size (loop_body scanner st line) = size st ++ [len line]
  /\ ((exists ins, scanner (upper line) = Found ins
         /\ result (loop_body scanner st line) = result st ++ [ins]
         /\ no_constant_region (loop_body scanner st line) = no_constant_region st)
      \/ (scanner (upper line) = Missed
          /\ result (loop_body scanner st line) = result st
          /\ no_constant_region (loop_body scanner st line)
             = no_constant_region st + 1)).
Proof.
  unfold loop_body. destruct (scanner (upper line)) as [ins|]; simpl.
  - repeat split. left. now exists ins.
  - repeat split. now right.
Qed.

Lemma pass_snoc (reads : list str) (line : str) (st : Report) :
  pass (reads ++ [line]) st = loop_body scanner (pass reads st) line.
Proof. unfold pass. now rewrite fold_left_app. Qed.

(** What a pass adds to the four values it started from. *)
Lemma pass_totals (reads : list str) :
  forall st : Report,
    read_count (pass reads st) = read_count st + Z.of_nat (length reads)
    /\ Z.of_nat (length (result (pass reads st))) + no_constant_region (pass reads st)
       = Z.of_nat (length (result st)) + no_constant_region st
         + Z.of_nat (length reads)
    /\ size (pass reads st) = size st ++ map len reads.
Proof.
  induction reads as [|line reads IH]; intros st.
  - simpl. rewrite app_nil_r. repeat split; lia.
  - change (pass (line :: reads) st) with (pass reads (loop_body scanner st line)).
    destruct (IH (loop_body scanner st line)) as (Hc & Hr & Hs).
    destruct (loop_body_tally st line) as (Hc1 & Hs1 & Ho).
    rewrite Hc, Hr, Hs, Hc1, Hs1. simpl length. simpl map.
    rewrite <- app_assoc. simpl. repeat split; try lia.
    destruct Ho as [(ins & _ & -> & ->)|(_ & -> & ->)];
      rewrite ?length_app; simpl; lia.
Qed.

End Pass.

Lemma pass_tallies_each_read_once (scanner : str -> MatchOutcome) :
  tallies_each_read_once
    (fun reads => fold_left (loop_body scanner) reads empty_report).
Proof.
  repeat split.
  - rewrite fold_left_app. simpl. apply loop_body_tally.
  - rewrite fold_left_app. simpl.
    destruct (loop_body_tally scanner
                (fold_left (loop_body scanner) reads empty_report) line)
      as (_ & _ & [(ins & _ & Hr & Hm)|(_ & Hr & Hm)]).
    + left. now exists ins.
    + now right.
  - now destruct (pass_totals scanner reads empty_report) as (-> & _ & _).
  - destruct (pass_totals scanner reads empty_report) as (-> & Hr & _).
    unfold len. rewrite Hr. reflexivity.
Qed.

(** C4. After a full pass of either detection routine over a finite
    stream of reads, [len(result) + no_constant_region = read_count]:
    each read adds one to [read_count] and either appends exactly one
    insert to [result] or adds one to [no_constant_region], never both
    and never neither; an empty stream returns empty lists and two zero
    counters. *)
Theorem extracted_plus_missed_is_read_count
    (BCV_left BCV_right BCV_left_revcomp BCV_right_revcomp : str)
    (BCV_loc BCV_margin BCV_loc_revcomp BCV_size : Z) :
  tallies_each_read_once
    (fun reads =>
       barcode_detection reads BCV_left BCV_right BCV_left_revcomp
         BCV_right_revcomp BCV_size)
  /\ tallies_each_read_once
       (fun reads =>
          barcode_detection_margin reads BCV_left BCV_right BCV_loc BCV_margin
            BCV_left_revcomp BCV_right_revcomp BCV_loc_revcomp BCV_size).
Proof.
  split; apply pass_tallies_each_read_once.
Qed.

(** C10. For every stream of reads, each read contributes exactly one
    entry, its length, to the list of lengths that either routine
    returns, whether its scan ends in [Found] or in [Missed]: the list is
    the list of the reads' lengths in the order of the reads, and it has
    [read_count] entries. *)
Theorem size_lists_every_read_length
    (reads : list str)
    (BCV_left BCV_right BCV_left_revcomp BCV_right_revcomp : str)
    (BCV_loc BCV_margin BCV_loc_revcomp BCV_size : Z) :
  (size (barcode_detection reads BCV_left BCV_right BCV_left_revcomp
           BCV_right_revcomp BCV_size) = map len reads
   /\ len (size (barcode_detection reads BCV_left BCV_right BCV_left_revcomp
                   BCV_right_revcomp BCV_size))
      = read_count (barcode_detection reads BCV_left BCV_right
                      BCV_left_revcomp BCV_right_revcomp BCV_size))
  /\ (size (barcode_detection_margin reads BCV_left BCV_right BCV_loc
              BCV_margin BCV_left_revcomp BCV_right_revcomp BCV_loc_revcomp
              BCV_size) = map len reads
      /\ len (size (barcode_detection_margin reads BCV_left BCV_right BCV_loc
                      BCV_margin BCV_left_revcomp BCV_right_revcomp
                      BCV_loc_revcomp BCV_size))
         = read_count (barcode_detection_margin reads BCV_left BCV_right
                         BCV_loc BCV_margin BCV_left_revcomp BCV_right_revcomp
                         BCV_loc_revcomp BCV_size)).
Proof.
  unfold barcode_detection, barcode_detection_margin.
  split.
  - destruct (pass_totals
                (fun ln => scan ln BCV_left BCV_right BCV_left_revcomp
                             BCV_right_revcomp BCV_size) reads empty_report)
      as (Hc & _ & Hs).
    rewrite Hc, Hs. simpl. split; [reflexivity|]. unfold len. now rewrite length_map.
  - destruct (pass_totals
                (fun ln => scan_margin ln BCV_left BCV_right BCV_loc BCV_margin
                             BCV_left_revcomp BCV_right_revcomp BCV_loc_revcomp
                             BCV_size) reads empty_report)
      as (Hc & _ & Hs).
    rewrite Hc, Hs. simpl. split; [reflexivity|]. unfold len. now rewrite length_map.
Qed.

(** ** A left flank that is absent *)

Lemma absent_of_find (s sub : str) :
  find s sub None None = -1 -> forall j, ~ Spec.occurs_at sub s j.
Proof.
  intros H. destruct (find_first_occurrence s sub) as [[Hocc _]|[_ Hnone]].
  - apply occurs_at_fits in Hocc. lia.
  - exact Hnone.
Qed.

(** C2. The read [TTTTTTTCCGG] holds the right flank [CCGG] at index 7
    and the left flank [GATC] nowhere. With insert size 4 the search for
    the left flank returns [-1], the equality [7 - (-1) = 4 + 4] of the
    first step holds, and both scanners return [Found "TTTT"] instead of
    [Missed]: the forward step finds an insert although the forward left
    flank is absent. *)
Theorem absent_left_flank_is_found_anyway :
  (forall j, ~ Spec.occurs_at (py "GATC") (py "TTTTTTTCCGG") j)
  /\ find (py "TTTTTTTCCGG") (py "GATC") None None = -1
  /\ find (py "TTTTTTTCCGG") (py "CCGG") None None = 7
  /\ scan (py "TTTTTTTCCGG") (py "GATC") (py "CCGG") (py "CCGG") (py "GATC") 4
     = Found (py "TTTT")
  /\ find (py "TTTTTTTCCGG") (py "GATC") (Some (8 - 5 - len (py "GATC"))) None = -1
  /\ scan_margin (py "TTTTTTTCCGG") (py "GATC") (py "CCGG") 8 5
       (py "CCGG") (py "GATC") 8 4
     = Found (py "TTTT").
Proof.
  split; [apply absent_of_find; reflexivity|].
  repeat split; reflexivity.
Qed.

(** ** The choice of the scanner *)

(** The windowed routine is called exactly when the three window
    variables hold integers other than zero. *)
Lemma select_scanner_windowed (BCV_loc : option Z) (BCV_margin : Z)
    (BCV_loc_revcomp : option Z) :
  select_scanner BCV_loc BCV_margin BCV_loc_revcomp = Windowed
  <-> exists l k, BCV_loc = Some l /\ BCV_loc_revcomp = Some k
                  /\ l <> 0 /\ BCV_margin <> 0 /\ k <> 0.
Proof.
  unfold select_scanner, truthy, truthy_int. split.
  - destruct BCV_loc as [l|], BCV_loc_revcomp as [k|]; simpl;
      try (rewrite ?orb_true_r; discriminate).
    destruct (Z.eqb_spec l 0), (Z.eqb_spec BCV_margin 0), (Z.eqb_spec k 0);
      simpl; try discriminate.
    intros _. now exists l, k.
  - intros (l & k & -> & -> & Hl & Hm & Hk).
    apply Z.eqb_neq in Hl, Hm, Hk. now rewrite Hl, Hm, Hk.
Qed.

(** A window variable that is [None] selects the unwindowed routine. *)
Lemma select_scanner_missing (BCV_loc : option Z) (BCV_margin : Z)
    (BCV_loc_revcomp : option Z) :
  BCV_loc = None \/ BCV_loc_revcomp = None ->
  select_scanner BCV_loc BCV_margin BCV_loc_revcomp = Unwindowed.
Proof.
  intros [-> | ->]; unfold select_scanner; simpl; [reflexivity|].
  now rewrite orb_true_r.
Qed.

(** On values other than zero the test is the test of presence. *)
Lemma select_scanner_presence (BCV_loc : option Z) (BCV_margin : Z)
    (BCV_loc_revcomp : option Z) :
  BCV_loc <> Some 0 -> BCV_margin <> 0 -> BCV_loc_revcomp <> Some 0 ->
  select_scanner BCV_loc BCV_margin BCV_loc_revcomp
  = Spec.select_by_presence BCV_loc (Some BCV_margin) BCV_loc_revcomp.
Proof.
  intros Hl Hm Hk. unfold select_scanner, Spec.select_by_presence, truthy, truthy_int.
  apply Z.eqb_neq in Hm. rewrite Hm.
  destruct BCV_loc as [l|], BCV_loc_revcomp as [k|]; simpl; try reflexivity.
  - destruct (Z.eqb_spec l 0); [congruence|].
    destruct (Z.eqb_spec k 0); [congruence | reflexivity].
  - now rewrite orb_true_r.
Qed.

(** C5. With [-n 0 -m 5 -k 60] on the command line all three window
    values are present, and the script calls the unwindowed routine; the
    same with [-n 20 -m 0 -k 60]. A supplied value of zero is treated as
    a value that was not supplied. *)
Theorem supplied_zero_selects_unwindowed :
  (Spec.select_by_presence (Some 0) (Some 5) (Some 60) = Windowed
   /\ select_scanner (Some 0) 5 (Some 60) = Unwindowed)
  /\ (Spec.select_by_presence (Some 20) (Some 0) (Some 60) = Windowed
      /\ select_scanner (Some 20) 0 (Some 60) = Unwindowed)
  /\ forall (reads : list str),
       run dna_complement
         (parse_args (mkCommandLine PV (py "GATC") (py "CCGG")
                        (Some 0) None (Some 60) (Some 4)))
         [] reads
       = Returned (barcode_detection reads (py "GATC") (py "CCGG")
                     (py "CCGG") (py "GATC") 4).
Proof.
  repeat split; reflexivity.
Qed.

(** ** The windowed scan *)

Lemma scan_margin_by_strands (ln l r lrc rrc : str) (loc margin loc_rc n : Z) :
  scan_margin ln l r loc margin lrc rrc loc_rc n =
  match scan_margin_strand ln l r loc margin n l r with
  | Some ins => Found ins
  | None =>
      match scan_margin_strand ln lrc rrc loc_rc margin n l r with
      | Some ins => Found ins
      | None => Missed
      end
  end.
Proof.
  unfold scan_margin, scan_margin_strand.
  destruct (_ - _ =? n + len l); [reflexivity|].
  destruct (_ - _ =? n + len l); [reflexivity|].
  destruct (_ - _ =? n + len lrc); [reflexivity|].
  destruct (_ - _ =? n + len lrc); reflexivity.
Qed.

(** A search from a start within the read looks at the positions from
    the start on; with a stop as well, at the occurrences that end before
    the stop. *)
Lemma find_from (s sub : str) (start : Z) :
  0 <= start ->
  Spec.first_within sub s start (len s) (find s sub (Some start) None).
Proof.
  intros H. pose proof (find_within s sub (Some start) None) as Hw.
  pose proof (len_nonneg s).
  unfold window, adjust_start, adjust_stop in Hw. simpl in Hw.
  rewrite Z.ltb_irrefl in Hw.
  destruct (Z.ltb_spec start 0); [lia|].
  destruct (Z.ltb_spec (len s) 0); [lia | exact Hw].
Qed.

Lemma rfind_between (s sub : str) (start stop : Z) :
  0 <= start -> 0 <= stop ->
  Spec.last_within sub s start (Z.min stop (len s))
    (rfind s sub (Some start) (Some stop)).
Proof.
  intros Ha He. pose proof (rfind_within s sub (Some start) (Some stop)) as Hw.
  unfold window, adjust_start, adjust_stop in Hw. simpl in Hw.
  destruct (Z.ltb_spec start 0); [lia|].
  destruct (Z.ltb_spec (len s) stop).
  - now rewrite Z.min_r by lia.
  - destruct (Z.ltb_spec stop 0); [lia|]. now rewrite Z.min_l by lia.
Qed.

(** The forward steps of [scan_margin] are the specified ones, and so are
    the reverse-complement steps when each reverse-complement flank is as
    long as the forward flank of the same side. *)
Lemma scan_margin_forward (ln l r lrc rrc ins : str) (loc margin loc_rc n : Z) :
  Spec.strand_windowed (fun start => start) ln l r loc margin n = Some ins ->
  scan_margin ln l r loc margin lrc rrc loc_rc n = Found ins.
Proof.
  intros H. rewrite scan_margin_by_strands.
  change (scan_margin_strand ln l r loc margin n l r)
    with (Spec.strand_windowed (fun start => start) ln l r loc margin n).
  now rewrite H.
Qed.

Lemma scan_margin_equal_lengths (ln l r lrc rrc : str) (loc margin loc_rc n : Z) :
  len lrc = len l -> len rrc = len r ->
  scan_margin ln l r loc margin lrc rrc loc_rc n
  = Spec.scan_windowed (fun start => start) ln l r loc margin lrc rrc loc_rc n.
Proof.
  intros Hl Hr. rewrite scan_margin_by_strands.
  unfold Spec.scan_windowed, Spec.strand_windowed, scan_margin_strand.
  now rewrite Hl, Hr.
Qed.

(** C6. Flanks [GATC] and [AAAAAAAAAA], hence [left_rc = TTTTTTTTTT] and
    [right_rc = GATC]; insert size 4, margin 5, expected positions 15.
    The read [CCCCC TTTTTTTTTT ACAC GATC] carries the insert [ACAC] on the
    reverse strand exactly at position 15. Bounded as the forward searches
    are, with the flank searched for in the bounds, the search for
    [left_rc] starts at [15 - 5 - 10 = 0] and the insert is found;
    [scan_margin] starts it at [15 - 5 - len(GATC) = 6], past the only
    occurrence, and the read is missed. *)
Theorem revcomp_window_uses_forward_flank_lengths :
  upper (reverse_complement dna_complement (py "AAAAAAAAAA")) = py "TTTTTTTTTT"
  /\ upper (reverse_complement dna_complement (py "GATC")) = py "GATC"
  /\ find (py "CCCCCTTTTTTTTTTACACGATC") (py "TTTTTTTTTT")
       (Some (15 - 5 - len (py "TTTTTTTTTT"))) None = 5
  /\ find (py "CCCCCTTTTTTTTTTACACGATC") (py "TTTTTTTTTT")
       (Some (15 - 5 - len (py "GATC"))) None = -1
  /\ Spec.scan_windowed (fun start => start) (py "CCCCCTTTTTTTTTTACACGATC")
       (py "GATC") (py "AAAAAAAAAA") 15 5 (py "TTTTTTTTTT") (py "GATC") 15 4
     = Found (py "ACAC")
  /\ scan_margin (py "CCCCCTTTTTTTTTTACACGATC")
       (py "GATC") (py "AAAAAAAAAA") 15 5 (py "TTTTTTTTTT") (py "GATC") 15 4
     = Missed.
Proof.
  repeat split; reflexivity.
Qed.

(** ** Windows that leave the read *)

(** A negative start is counted back from the end of the string, and is
    the first position only when it reaches back beyond it. *)
Lemma search_negative_start (which : str -> str -> nat -> option nat)
    (s sub : str) (start : Z) (stop : option Z) :
  start < 0 ->
  search which s sub (Some start) stop
  = search which s sub (Some (Z.max 0 (start + len s))) stop.
Proof.
  intros H. unfold search, window, adjust_start.
  destruct (Z.ltb_spec start 0); [|lia].
  destruct (Z.ltb_spec (Z.max 0 (start + len s)) 0); [lia | reflexivity].
Qed.

(** A start beyond the end of the string finds nothing. *)
Lemma search_past_end (which : str -> str -> nat -> option nat)
    (s sub : str) (start : Z) (stop : option Z) :
  len s < start -> search which s sub (Some start) stop = -1.
Proof.
  intros H. pose proof (window_bounds s (Some start) stop) as (_ & _ & He).
  pose proof (len_nonneg s). pose proof (len_nonneg sub).
  unfold search. unfold window in *. simpl in He.
  unfold adjust_start. destruct (Z.ltb_spec start 0); [lia|].
  destruct (Z.ltb_spec (adjust_stop (len s)
                          match stop with Some e => e | None => len s end - start)
              (len sub)); [reflexivity | lia].
Qed.

(** A read that ends before both windows begin is missed. *)
Lemma scan_margin_past_end (ln l r lrc rrc : str) (loc margin loc_rc n : Z) :
  0 < n ->
  len ln < loc - margin - len l ->
  len ln < loc_rc - margin - len l ->
  scan_margin ln l r loc margin lrc rrc loc_rc n = Missed.
Proof.
  intros Hn H1 H2. pose proof (len_nonneg l). pose proof (len_nonneg lrc).
  unfold scan_margin, find, rfind.
  rewrite !search_past_end by lia.
  destruct (Z.eqb_spec (-1 - -1) (n + len l)); [lia|].
  destruct (Z.eqb_spec (-1 - -1) (n + len lrc)); [lia | reflexivity].
Qed.

(** C7. The read [GATCAAAACCGG] carries the insert [AAAA] at position 4
    between [GATC] and [CCGG]; the window is given by position 4 and
    margin 5. The computed start of the search for the left flank is
    [4 - 5 - 4 = -5]: [find] counts it back from the end and searches
    from index 7, where there is no [GATC], whereas the search from the
    first position of the read finds it at index 0. [scan_margin] misses
    the read; the scanner whose searches begin at position 0 when the
    computed start is negative finds [AAAA]. *)
Theorem negative_start_is_counted_from_the_end :
  4 - 5 - len (py "GATC") = -5
  /\ find (py "GATCAAAACCGG") (py "GATC") (Some (-5)) None = -1
  /\ find (py "GATCAAAACCGG") (py "GATC") (Some (-5)) None
     = find (py "GATCAAAACCGG") (py "GATC") (Some 7) None
  /\ find (py "GATCAAAACCGG") (py "GATC") (Some (Spec.clamped (-5))) None = 0
  /\ scan_margin (py "GATCAAAACCGG") (py "GATC") (py "CCGG") 4 5
       (py "CCGG") (py "GATC") 4 4 = Missed
  /\ Spec.scan_windowed Spec.clamped (py "GATCAAAACCGG") (py "GATC") (py "CCGG")
       4 5 (py "CCGG") (py "GATC") 4 4 = Found (py "AAAA").
Proof.
  repeat split; reflexivity.
Qed.

(** ** The scenario with a recurring right flank *)

(** In the read of scenario B the span from the first [GATC] to the last
    [CCGG] is 24, not 8, so the last-occurrence step on its own gives
    [Missed]; the scan gives [Found "AAAA"]. *)
Lemma scenario_B_is_not_missed :
  Spec.last_occurrence_outcome (py "GATCAAAACCGGTTTTGATCAAAACCGG")
    (py "GATC") (py "CCGG") 4 = Missed
  /\ scan (py "GATCAAAACCGGTTTTGATCAAAACCGG")
       (py "GATC") (py "CCGG") (py "CCGG") (py "GATC") 4
     = Found (py "AAAA").
Proof.
  split; reflexivity.
Qed.

(** C8, as amended. With flanks [GATC] and [CCGG] and insert size 4, in
    the read [GATCAAAACCGGTTTTGATCAAAACCGG] the first [GATC] is at index
    0, the first [CCGG] at index 8 and the last [CCGG] at index 24. The
    equality of the first-occurrence step holds, [8 - 0 = 4 + 4], so the
    scan returns [Found "AAAA"], the span between the first left flank
    and the first right flank; the span up to the last right flank does
    not satisfy the equality and is not what the scan returns. *)
Theorem scenario_B_first_occurrence_wins :
  find (py "GATCAAAACCGGTTTTGATCAAAACCGG") (py "GATC") None None = 0
  /\ find (py "GATCAAAACCGGTTTTGATCAAAACCGG") (py "CCGG") None None = 8
  /\ rfind (py "GATCAAAACCGGTTTTGATCAAAACCGG") (py "CCGG") None None = 24
  /\ scan (py "GATCAAAACCGGTTTTGATCAAAACCGG")
       (py "GATC") (py "CCGG") (py "CCGG") (py "GATC") 4
     = Found (slice (py "GATCAAAACCGGTTTTGATCAAAACCGG") (0 + len (py "GATC")) 8)
  /\ slice (py "GATCAAAACCGGTTTTGATCAAAACCGG") (0 + len (py "GATC")) 8
     = py "AAAA"
  /\ scan_strand (py "GATCAAAACCGGTTTTGATCAAAACCGG") (py "GATC") (py "CCGG") 4
     <> Some (slice (py "GATCAAAACCGGTTTTGATCAAAACCGG") (0 + len (py "GATC")) 24).
Proof.
  repeat split; try reflexivity. discriminate.
Qed.

(** ** Specifications that are not valid *)

(** The empty flanks with insert size 0 are scanned for, and found in
    every read; a missing insert size in mode PV comes to light when the
    first read is scanned, and not at all on a file without reads. *)
Lemma invalid_spec_is_scanned :
  Spec.invalid_spec [] [] 0
  /\ run dna_complement (mkArgs PV [] [] None 5 None (Some 0)) []
       [py "ACGT"; py "TTGCA"]
     = Returned (mkReport [[]; []] 2 0 [4; 5])
  /\ run dna_complement (mkArgs PV (py "GATC") (py "CCGG") None 5 None None) []
       [py "GATCAAAACCGG"]
     = Raised TypeError
  /\ run dna_complement (mkArgs PV (py "GATC") (py "CCGG") None 5 None None) []
       []
     = Returned empty_report.
Proof.
  repeat split; try reflexivity. left. lia.
Qed.

Lemma search_file_returns (g : Flanks) (n : Z) (reads : list str) :
  exists r, search_file g (Some n) reads = Returned r
            /\ read_count r = len reads
            /\ len (result r) + no_constant_region r = len reads.
Proof.
  unfold search_file.
  destruct (select_scanner (BCV_loc g) (BCV_margin g) (BCV_loc_revcomp g)) eqn:Hsel.
  - eexists. split; [reflexivity|].
    destruct (pass_totals (fun ln => scan ln (BCV_left g) (BCV_right g)
                             (BCV_left_revcomp g) (BCV_right_revcomp g) n)
                reads empty_report) as (Hc & Hr & _).
    unfold barcode_detection, len. rewrite Hc, Hr. split; reflexivity.
  - apply select_scanner_windowed in Hsel.
    destruct Hsel as (l & k & Hl & Hk & _). rewrite Hl, Hk. simpl.
    eexists. split; [reflexivity|].
    destruct (pass_totals (fun ln => scan_margin ln (BCV_left g) (BCV_right g)
                             l (BCV_margin g) (BCV_left_revcomp g)
                             (BCV_right_revcomp g) k n)
                reads empty_report) as (Hc & Hr & _).
    unfold barcode_detection_margin, len. rewrite Hc, Hr. split; reflexivity.
Qed.

(** C9, as amended. No specification is rejected before the reads are
    scanned. In mode PV, whatever the flanks (empty or not), whatever the
    integer given as insert size (positive or not) and whatever window
    values are given or missing, the script scans every read and returns
    its report; in mode BC it does so with the length of the first
    barcode of the variants file as the insert size. A window
    specification with [loc] or [loc_rc] missing runs the unwindowed
    routine. *)
Theorem no_spec_is_rejected
    (complement : ascii -> ascii) (left right : str)
    (loc : option Z) (margin : Z) (loc_rc : option Z) (reads : list str) :
  (forall insert_size : Z,
     exists r,
       run complement (mkArgs PV left right loc margin loc_rc (Some insert_size))
         [] reads = Returned r
       /\ read_count r = len reads
       /\ len (result r) + no_constant_region r = len reads)
  /\ (forall (s : option Z) (barcode variant : str) (variants : list (str * str)),
        exists r,
          run complement (mkArgs BC left right loc margin loc_rc s)
            ((barcode, variant) :: variants) reads = Returned r
          /\ read_count r = len reads
          /\ len (result r) + no_constant_region r = len reads)
  /\ (forall (m : Mode) (s : option Z) (variants : list (str * str)),
        run complement (mkArgs m left right None margin loc_rc s) variants reads
        = run complement (mkArgs m left right None margin None s) variants reads
        /\ run complement (mkArgs m left right loc margin None s) variants reads
           = run complement (mkArgs m left right None margin None s) variants
               reads).
Proof.
  split; [|split].
  - intros n. unfold run. simpl mode. cbv iota.
    apply search_file_returns.
  - intros s barcode variant variants. unfold run. simpl mode. cbv iota.
    apply search_file_returns.
  - intros m s variants. unfold run, search_file.
    cbn -[select_scanner upper reverse_complement call_barcode_detection].
    rewrite (select_scanner_missing None margin loc_rc) by now left.
    rewrite (select_scanner_missing None margin None) by now left.
    rewrite (select_scanner_missing loc margin None) by now right.
    destruct m; split; reflexivity.
Qed.

(** * Further properties of the detection routines *)

(** ** The closed form of a pass *)

Lemma pass_closed_form (scanner : str -> MatchOutcome) (reads : list str) :
  forall st : Report,
    fold_left (loop_body scanner) reads st
    = mkReport (result st ++ found_inserts scanner reads)
        (read_count st + len reads)
        (no_constant_region st + len (missed_reads scanner reads))
        (size st ++ map len reads).
Proof.
  induction reads as [|line reads IH]; intros st.
  - simpl. unfold len. simpl. rewrite !app_nil_r, !Z.add_0_r. now destruct st.
  - simpl fold_left. rewrite IH. unfold loop_body, found_inserts, missed_reads.
    simpl flat_map. simpl filter. simpl map.
    destruct (scanner (upper line)) as [BCV|]; simpl;
      rewrite <- ?app_assoc; simpl; f_equal; unfold len; simpl length; lia.
Qed.

Lemma pass_from_empty (scanner : str -> MatchOutcome) (reads : list str) :
  fold_left (loop_body scanner) reads empty_report
  = mkReport (found_inserts scanner reads) (len reads)
      (len (missed_reads scanner reads)) (map len reads).
Proof. now rewrite pass_closed_form. Qed.

Lemma pass_app (scanner : str -> MatchOutcome) (reads1 reads2 : list str) :
  fold_left (loop_body scanner) (reads1 ++ reads2) empty_report
  = merge_reports (fold_left (loop_body scanner) reads1 empty_report)
      (fold_left (loop_body scanner) reads2 empty_report).
Proof.
  rewrite !pass_from_empty. unfold merge_reports, found_inserts, missed_reads.
  simpl. rewrite flat_map_app, filter_app, map_app. unfold len.
  rewrite !length_app. f_equal; lia.
Qed.

(** X1. The inserts either routine returns are the inserts of the reads
    in which the scan finds one, in the order of the reads, and the
    number of reads without constant region is the number of reads in
    which the scan finds none. *)
Theorem result_lists_found_inserts_in_read_order
    (reads : list str)
    (BCV_left BCV_right BCV_left_revcomp BCV_right_revcomp : str)
    (BCV_loc BCV_margin BCV_loc_revcomp BCV_size : Z) :
  (result (barcode_detection reads BCV_left BCV_right BCV_left_revcomp
             BCV_right_revcomp BCV_size)
   = found_inserts (fun ln => scan ln BCV_left BCV_right BCV_left_revcomp
                                BCV_right_revcomp BCV_size) reads
   /\ no_constant_region (barcode_detection reads BCV_left BCV_right
                            BCV_left_revcomp BCV_right_revcomp BCV_size)
      = len (missed_reads (fun ln => scan ln BCV_left BCV_right
                                       BCV_left_revcomp BCV_right_revcomp
                                       BCV_size) reads))
  /\ (result (barcode_detection_margin reads BCV_left BCV_right BCV_loc
                BCV_margin BCV_left_revcomp BCV_right_revcomp BCV_loc_revcomp
                BCV_size)
      = found_inserts (fun ln => scan_margin ln BCV_left BCV_right BCV_loc
                                   BCV_margin BCV_left_revcomp
                                   BCV_right_revcomp BCV_loc_revcomp BCV_size)
          reads
      /\ no_constant_region (barcode_detection_margin reads BCV_left BCV_right
                               BCV_loc BCV_margin BCV_left_revcomp
                               BCV_right_revcomp BCV_loc_revcomp BCV_size)
         = len (missed_reads (fun ln => scan_margin ln BCV_left BCV_right
                                          BCV_loc BCV_margin BCV_left_revcomp
                                          BCV_right_revcomp BCV_loc_revcomp
                                          BCV_size) reads)).
Proof.
  unfold barcode_detection, barcode_detection_margin.
  rewrite !pass_from_empty. simpl. repeat split.
Qed.

(** X2. A pass over two streams one after the other returns the two
    reports put together: the lists of inserts and of lengths
    concatenated, the two counters added. A stream may be cut anywhere
    and its parts scanned separately. *)
Theorem pass_over_concatenation_merges_reports
    (reads1 reads2 : list str)
    (BCV_left BCV_right BCV_left_revcomp BCV_right_revcomp : str)
    (BCV_loc BCV_margin BCV_loc_revcomp BCV_size : Z) :
  barcode_detection (reads1 ++ reads2) BCV_left BCV_right BCV_left_revcomp
    BCV_right_revcomp BCV_size
  = merge_reports
      (barcode_detection reads1 BCV_left BCV_right BCV_left_revcomp
         BCV_right_revcomp BCV_size)
      (barcode_detection reads2 BCV_left BCV_right BCV_left_revcomp
         BCV_right_revcomp BCV_size)
  /\ barcode_detection_margin (reads1 ++ reads2) BCV_left BCV_right BCV_loc
       BCV_margin BCV_left_revcomp BCV_right_revcomp BCV_loc_revcomp BCV_size
     = merge_reports
         (barcode_detection_margin reads1 BCV_left BCV_right BCV_loc
            BCV_margin BCV_left_revcomp BCV_right_revcomp BCV_loc_revcomp
            BCV_size)
         (barcode_detection_margin reads2 BCV_left BCV_right BCV_loc
            BCV_margin BCV_left_revcomp BCV_right_revcomp BCV_loc_revcomp
            BCV_size).
Proof.
  unfold barcode_detection, barcode_detection_margin. split; apply pass_app.
Qed.

(** ** Inserts are pieces of the reads *)

Lemma slice_substring (s : str) (i j : Z) : substring_of (slice s i j) s.
Proof.
  unfold substring_of, slice.
  set (a := Z.to_nat (slice_index (len s) i)).
  set (k := Z.to_nat (slice_index (len s) j - slice_index (len s) i)).
  exists (firstn a s), (skipn k (skipn a s)).
  now rewrite firstn_skipn, firstn_skipn.
Qed.

Lemma len_map (f : ascii -> ascii) (s : str) : len (map f s) = len s.
Proof. unfold len. now rewrite length_map. Qed.

Lemma slice_map (f : ascii -> ascii) (s : str) (i j : Z) :
  slice (map f s) i j = map f (slice s i j).
Proof.
  unfold slice. rewrite len_map.
  now rewrite skipn_map, firstn_map.
Qed.

Lemma upper_char_idempotent (c : ascii) : upper_char (upper_char c) = upper_char c.
Proof.
  destruct c as [[] [] [] [] [] [] [] []]; reflexivity.
Qed.

Lemma upper_idempotent (s : str) : upper (upper s) = upper s.
Proof.
  unfold upper. rewrite map_map. apply map_ext. apply upper_char_idempotent.
Qed.

Lemma scan_found_is_slice (ln l r lrc rrc ins : str) (n : Z) :
  scan ln l r lrc rrc n = Found ins -> exists i j, ins = slice ln i j.
Proof.
  unfold scan.
  repeat match goal with
         | |- context [?a - ?b =? ?c] => destruct (a - b =? c)
         end;
    intros [= <-]; eauto.
Qed.

Lemma scan_margin_found_is_slice (ln l r lrc rrc ins : str)
    (loc margin loc_rc n : Z) :
  scan_margin ln l r loc margin lrc rrc loc_rc n = Found ins ->
  exists i j, ins = slice ln i j.
Proof.
  unfold scan_margin.
  repeat match goal with
         | |- context [?a - ?b =? ?c] => destruct (a - b =? c)
         end;
    intros [= <-]; eauto.
Qed.

Lemma in_found_inserts (scanner : str -> MatchOutcome) (reads : list str)
    (ins : str) :
  In ins (found_inserts scanner reads)
  <-> exists line, In line reads /\ scanner (upper line) = Found ins.
Proof.
  unfold found_inserts. rewrite in_flat_map. split.
  - intros (line & Hin & H). exists line. split; [exact Hin|].
    destruct (scanner (upper line)) as [BCV|]; [|contradiction].
    destruct H as [->|[]]. reflexivity.
  - intros (line & Hin & H). exists line. split; [exact Hin|].
    rewrite H. now left.
Qed.

(** Every insert of a scanner that returns slices of the read it is
    given is an upper-case piece of an upper-cased read of the stream. *)
Lemma found_inserts_are_pieces (scanner : str -> MatchOutcome)
    (reads : list str) :
  (forall ln ins, scanner ln = Found ins -> exists i j, ins = slice ln i j) ->
  Forall (fun ins =>
            upper ins = ins
            /\ exists line, In line reads /\ substring_of ins (upper line))
    (found_inserts scanner reads).
Proof.
  intros Hs. apply Forall_forall. intros ins Hin.
  apply in_found_inserts in Hin. destruct Hin as (line & Hline & Hf).
  destruct (Hs _ _ Hf) as (i & j & ->). split.
  - unfold upper at 1. rewrite <- slice_map. fold (upper (upper line)).
    now rewrite upper_idempotent.
  - exists line. split; [exact Hline | apply slice_substring].
Qed.

(** X3. Every insert either routine returns is a contiguous piece of
    the upper-cased sequence of a read of the stream, and is in upper
    case. This holds for the reads matched through the
    reverse-complement flanks as well: their insert is returned as it
    stands in the read, not complemented back. *)
Theorem inserts_are_pieces_of_the_reads
    (reads : list str)
    (BCV_left BCV_right BCV_left_revcomp BCV_right_revcomp : str)
    (BCV_loc BCV_margin BCV_loc_revcomp BCV_size : Z) :
  Forall (fun ins =>
            upper ins = ins
            /\ exists line, In line reads /\ substring_of ins (upper line))
    (result (barcode_detection reads BCV_left BCV_right BCV_left_revcomp
               BCV_right_revcomp BCV_size))
  /\ Forall (fun ins =>
               upper ins = ins
               /\ exists line, In line reads /\ substring_of ins (upper line))
       (result (barcode_detection_margin reads BCV_left BCV_right BCV_loc
                  BCV_margin BCV_left_revcomp BCV_right_revcomp
                  BCV_loc_revcomp BCV_size)).
Proof.
  unfold barcode_detection, barcode_detection_margin.
  rewrite !pass_from_empty. simpl. split; apply found_inserts_are_pieces.
  - intros ln ins. apply scan_found_is_slice.
  - intros ln ins. apply scan_margin_found_is_slice.
Qed.

(** ** Letter case *)

Lemma found_inserts_upper (scanner : str -> MatchOutcome) (reads : list str) :
  found_inserts scanner (map upper reads) = found_inserts scanner reads.
Proof.
  unfold found_inserts. induction reads as [|line reads IH]; [reflexivity|].
  simpl. now rewrite upper_idempotent, IH.
Qed.

Lemma missed_reads_upper (scanner : str -> MatchOutcome) (reads : list str) :
  len (missed_reads scanner (map upper reads)) = len (missed_reads scanner reads).
Proof.
  unfold missed_reads, len. f_equal.
  induction reads as [|line reads IH]; [reflexivity|].
  simpl. rewrite upper_idempotent.
  destruct (scanner (upper line)); simpl; now rewrite IH.
Qed.

Lemma pass_upper (scanner : str -> MatchOutcome) (reads : list str) :
  fold_left (loop_body scanner) (map upper reads) empty_report
  = fold_left (loop_body scanner) reads empty_report.
Proof.
  rewrite !pass_from_empty, found_inserts_upper, missed_reads_upper.
  f_equal.
  - unfold len. now rewrite length_map.
  - rewrite map_map. apply map_ext. intros s. apply len_upper.
Qed.

(** X4. The letter case of the reads does not matter: either routine
    returns the same four values on a stream and on the stream with
    every read put in upper case. *)
Theorem reads_are_scanned_regardless_of_case
    (reads : list str)
    (BCV_left BCV_right BCV_left_revcomp BCV_right_revcomp : str)
    (BCV_loc BCV_margin BCV_loc_revcomp BCV_size : Z) :
  barcode_detection (map upper reads) BCV_left BCV_right BCV_left_revcomp
    BCV_right_revcomp BCV_size
  = barcode_detection reads BCV_left BCV_right BCV_left_revcomp
      BCV_right_revcomp BCV_size
  /\ barcode_detection_margin (map upper reads) BCV_left BCV_right BCV_loc
       BCV_margin BCV_left_revcomp BCV_right_revcomp BCV_loc_revcomp BCV_size
     = barcode_detection_margin reads BCV_left BCV_right BCV_loc BCV_margin
         BCV_left_revcomp BCV_right_revcomp BCV_loc_revcomp BCV_size.
Proof.
  unfold barcode_detection, barcode_detection_margin. split; apply pass_upper.
Qed.

(** ** Windows that cover the flanks *)

Lemma search_absent_anywhere (s sub : str) :
  find s sub None None = -1 ->
  forall start stop,
    find s sub start stop = -1 /\ rfind s sub start stop = -1.
Proof.
  intros H start stop. pose proof (absent_of_find _ _ H) as Hnone.
  split.
  - destruct (find_within s sub start stop) as [(_ & _ & Hocc & _)|[Hr _]];
      [elim (Hnone _ Hocc) | exact Hr].
  - destruct (rfind_within s sub start stop) as [(_ & _ & Hocc & _)|[Hr _]];
      [elim (Hnone _ Hocc) | exact Hr].
Qed.

Lemma rfind_absent_is_find_absent (s sub : str) :
  rfind s sub None None = -1 -> find s sub None None = -1.
Proof.
  intros H. destruct (rfind_last_occurrence s sub) as [[Hocc _]|[_ Hnone]].
  - apply occurs_at_fits in Hocc. lia.
  - destruct (find_first_occurrence s sub) as [[Hocc _]|[Hr _]];
      [elim (Hnone _ Hocc) | exact Hr].
Qed.

Lemma find_covered (s sub : str) (start : Z) :
  covers start None sub (find s sub None None) ->
  find s sub (Some start) None = find s sub None None.
Proof.
  intros [H|[Hs _]].
  - rewrite H. now apply search_absent_anywhere.
  - destruct (find_first_occurrence s sub) as [[Hocc Hmin]|[Hr _]]; [|lia].
    pose proof (occurs_at_fits _ _ _ Hocc) as Hfit.
    destruct (find_from s sub start) as [(Hlo & _ & Hocc' & Hmin')|[_ Hnone]];
      [lia | | ].
    + specialize (Hmin _ Hocc').
      destruct (Z.eq_dec (find s sub (Some start) None) (find s sub None None))
        as [E|E]; [exact E|].
      exfalso. apply (Hmin' (find s sub None None)); [lia | exact Hocc].
    + exfalso. apply (Hnone (find s sub None None)); [lia | lia | exact Hocc].
Qed.

Lemma rfind_covered (s sub : str) (start stop : Z) :
  covers start (Some stop) sub (rfind s sub None None) ->
  rfind s sub (Some start) (Some stop) = rfind s sub None None.
Proof.
  intros [H|[Hs He]].
  - rewrite H. now apply search_absent_anywhere, rfind_absent_is_find_absent.
  - destruct (rfind_last_occurrence s sub) as [[Hocc Hmax]|[Hr _]]; [|lia].
    pose proof (occurs_at_fits _ _ _ Hocc) as Hfit.
    pose proof (len_nonneg sub).
    destruct (rfind_between s sub start stop) as [(Hlo & _ & Hocc' & Hmax')|[_ Hnone]];
      [lia | lia | | ].
    + specialize (Hmax _ Hocc').
      destruct (Z.eq_dec (rfind s sub (Some start) (Some stop)) (rfind s sub None None))
        as [E|E]; [exact E|].
      exfalso. apply (Hmax' (rfind s sub None None)); [lia | lia | exact Hocc].
    + exfalso. apply (Hnone (rfind s sub None None)); [lia | lia | exact Hocc].
Qed.

(** X5. When every window of the windowed scanner covers what the
    corresponding search over the whole read returns (the flank is absent
    from the read, or its first, respectively last, occurrence lies in
    the window), the windowed scanner returns what the unwindowed scanner
    returns. *)
Theorem windowed_agrees_when_windows_cover
    (ln BCV_left BCV_right BCV_left_revcomp BCV_right_revcomp : str)
    (BCV_loc BCV_margin BCV_loc_revcomp BCV_size : Z) :
  covers (BCV_loc - BCV_margin + BCV_size) None BCV_right
    (find ln BCV_right None None) ->
  covers (BCV_loc - BCV_margin - len BCV_left) None BCV_left
    (find ln BCV_left None None) ->
  covers (BCV_loc - BCV_margin + BCV_size)
    (Some (BCV_loc + BCV_margin + BCV_size + len BCV_right)) BCV_right
    (rfind ln BCV_right None None) ->
  covers (BCV_loc_revcomp - BCV_margin + BCV_size) None BCV_right_revcomp
    (find ln BCV_right_revcomp None None) ->
  covers (BCV_loc_revcomp - BCV_margin - len BCV_left) None BCV_left_revcomp
    (find ln BCV_left_revcomp None None) ->
  covers (BCV_loc_revcomp - BCV_margin + BCV_size)
    (Some (BCV_loc_revcomp + BCV_margin + BCV_size + len BCV_right))
    BCV_right_revcomp (rfind ln BCV_right_revcomp None None) ->
  scan_margin ln BCV_left BCV_right BCV_loc BCV_margin BCV_left_revcomp
    BCV_right_revcomp BCV_loc_revcomp BCV_size
  = scan ln BCV_left BCV_right BCV_left_revcomp BCV_right_revcomp BCV_size.
Proof.
  intros HA HB HC HD HE HF. unfold scan_margin, scan.
  now rewrite (find_covered _ _ _ HA), (find_covered _ _ _ HB),
    (rfind_covered _ _ _ _ HC), (find_covered _ _ _ HD),
    (find_covered _ _ _ HE), (rfind_covered _ _ _ _ HF).
Qed.

(** The read [CCGACCACAAACCTT] with the insert [CACA] at position 5
    between [GAC] and [AACC], searched with position 5 and margin 2; the
    reverse-complement flanks [GGTT] and [GTC] are absent from it. *)
Lemma windowed_agrees_when_windows_cover_witness :
  scan_margin (py "CCGACCACAAACCTT") (py "GAC") (py "AACC") 5 2
    (py "GGTT") (py "GTC") 5 4
  = scan (py "CCGACCACAAACCTT") (py "GAC") (py "AACC") (py "GGTT")
      (py "GTC") 4.
Proof.
  apply (windowed_agrees_when_windows_cover (py "CCGACCACAAACCTT")
           (py "GAC") (py "AACC") (py "GGTT") (py "GTC") 5 2 5 4);
    unfold covers;
    first [ left; reflexivity
          | right; split;
            [ split; vm_compute; discriminate
            | first [ exact I | vm_compute; discriminate ] ] ].
Defined.

(** ** Windowed matches lie between flanks that are there *)

(** Two occurrences at the distance of a step's equality enclose the
    slice that the step takes. *)
Lemma between_occurrences (ln l r : str) (A B n : Z) :
  Spec.occurs_at l ln B -> Spec.occurs_at r ln A -> 0 <= n ->
  A - B = n + len l ->
  exists pre post,
    ln = pre ++ l ++ slice ln (B + len l) A ++ r ++ post /\ len pre = B.
Proof.
  intros Hoccl Hoccr Hn He.
  pose proof (len_nonneg l) as Hl. pose proof (len_nonneg r) as Hr.
  pose proof (occurs_at_fits _ _ _ Hoccl) as [HB0 _].
  pose proof (occurs_at_fits _ _ _ Hoccr) as [_ HAfit].
  destruct Hoccl as (pre1 & post1 & E1 & L1).
  destruct Hoccr as (pre2 & post2 & E2 & L2).
  set (p := Z.to_nat (B + len l)).
  assert (Hp : (p <= length pre2)%nat) by (unfold len in *; lia).
  assert (Hpre : firstn p pre2 = pre1 ++ l).
  { assert (H : firstn p ln = pre1 ++ l).
    { rewrite E1, app_assoc, firstn_app.
      replace (p - length (pre1 ++ l))%nat with 0%nat
        by (rewrite length_app; unfold len in *; lia).
      rewrite firstn_all2 by (rewrite length_app; unfold len in *; lia).
      simpl. now rewrite app_nil_r. }
    rewrite <- H, E2, firstn_app.
    replace (p - length pre2)%nat with 0%nat by lia.
    simpl. now rewrite app_nil_r. }
  assert (Hslice : slice ln (B + len l) A = skipn p pre2).
  { unfold slice, slice_index.
    destruct (Z.ltb_spec (B + len l) 0); [lia|].
    destruct (Z.ltb_spec A 0); [lia|].
    rewrite !Z.min_l by lia. fold p.
    rewrite E2, skipn_app.
    replace (p - length pre2)%nat with 0%nat by lia. simpl.
    rewrite firstn_app, firstn_all2 by (rewrite length_skipn; unfold len in *; lia).
    replace (Z.to_nat (A - (B + len l)) - length (skipn p pre2))%nat with 0%nat
      by (rewrite length_skipn; unfold len in *; lia).
    simpl. now rewrite app_nil_r. }
  exists pre1, post2. split; [|exact L1].
  rewrite Hslice. rewrite E2 at 1. rewrite <- (firstn_skipn p pre2) at 1.
  rewrite Hpre. now rewrite <- !app_assoc.
Qed.

(** A search from a start within the read returns [-1] or an occurrence
    at or after the start. *)
Lemma search_from_start (s sub : str) (start : Z) (stop : option Z) :
  0 <= start ->
  (find s sub (Some start) stop = -1
   \/ start <= find s sub (Some start) stop
      /\ Spec.occurs_at sub s (find s sub (Some start) stop))
  /\ (rfind s sub (Some start) stop = -1
      \/ start <= rfind s sub (Some start) stop
         /\ Spec.occurs_at sub s (rfind s sub (Some start) stop)).
Proof.
  intros H.
  assert (Hw : fst (window s (Some start) stop) = start).
  { unfold window, adjust_start. simpl. destruct (Z.ltb_spec start 0); lia. }
  split.
  - destruct (find_within s sub (Some start) stop) as [(Hlo & _ & Hocc & _)|[Hr _]];
      [right | now left]. rewrite Hw in Hlo. now split.
  - destruct (rfind_within s sub (Some start) stop) as [(Hlo & _ & Hocc & _)|[Hr _]];
      [right | now left]. rewrite Hw in Hlo. now split.
Qed.

Lemma margin_strand_between (ln l r wl wr ins : str) (loc margin n : Z) :
  0 < n -> 0 <= loc - margin - len wl -> len l <= len wl ->
  scan_margin_strand ln l r loc margin n wl wr = Some ins ->
  exists pre post,
    ln = pre ++ l ++ ins ++ r ++ post /\ loc - margin - len wl <= len pre.
Proof.
  intros Hn Hs Hlw. pose proof (len_nonneg l) as Hl. pose proof (len_nonneg wl).
  unfold scan_margin_strand.
  destruct (search_from_start ln r (loc - margin + n) None) as [HA _]; [lia|].
  destruct (search_from_start ln r (loc - margin + n)
              (Some (loc + margin + n + len wr))) as [_ HC]; [lia|].
  destruct (search_from_start ln l (loc - margin - len wl) None) as [HB _]; [lia|].
  set (A := find ln r (Some (loc - margin + n)) None) in *.
  set (B := find ln l (Some (loc - margin - len wl)) None) in *.
  set (C := rfind ln r (Some (loc - margin + n))
              (Some (loc + margin + n + len wr))) in *.
  destruct (Z.eqb_spec (A - B) (n + len l)) as [E1|_].
  - intros [= <-].
    destruct HB as [HB|[HBs HBo]]; [destruct HA as [HA|[HAs _]]; lia|].
    destruct HA as [HA|[_ HAo]]; [lia|].
    destruct (between_occurrences ln l r A B n HBo HAo) as (pre & post & E & L);
      [lia | exact E1 |].
    exists pre, post. split; [exact E | lia].
  - destruct (Z.eqb_spec (C - B) (n + len l)) as [E2|_]; [|discriminate].
    intros [= <-].
    destruct HB as [HB|[HBs HBo]]; [destruct HC as [HC|[HCs _]]; lia|].
    destruct HC as [HC|[_ HCo]]; [lia|].
    destruct (between_occurrences ln l r C B n HBo HCo) as (pre & post & E & L);
      [lia | exact E2 |].
    exists pre, post. split; [exact E | lia].
Qed.

(** X6. In the windowed scanner, with a positive insert size, both
    left-flank searches starting within the read, and a
    reverse-complement left flank no longer than the forward one, an
    insert is only ever found between two flanks that are in the read:
    the read is [pre ++ left ++ insert ++ right ++ post] with the left
    flank not before the start of its search, or the same with the
    reverse-complement flanks. The [-1] of an absent flank never
    satisfies a step's equality there. *)
Theorem windowed_insert_lies_between_present_flanks
    (ln BCV_left BCV_right BCV_left_revcomp BCV_right_revcomp ins : str)
    (BCV_loc BCV_margin BCV_loc_revcomp BCV_size : Z) :
  0 < BCV_size ->
  0 <= BCV_loc - BCV_margin - len BCV_left ->
  0 <= BCV_loc_revcomp - BCV_margin - len BCV_left ->
  len BCV_left_revcomp <= len BCV_left ->
  scan_margin ln BCV_left BCV_right BCV_loc BCV_margin BCV_left_revcomp
    BCV_right_revcomp BCV_loc_revcomp BCV_size = Found ins ->
  (exists pre post,
     ln = pre ++ BCV_left ++ ins ++ BCV_right ++ post
     /\ BCV_loc - BCV_margin - len BCV_left <= len pre)
  \/ (exists pre post,
        ln = pre ++ BCV_left_revcomp ++ ins ++ BCV_right_revcomp ++ post
        /\ BCV_loc_revcomp - BCV_margin - len BCV_left <= len pre).
Proof.
  intros Hn Hs Hsr Hlen. rewrite scan_margin_by_strands.
  destruct (scan_margin_strand ln BCV_left BCV_right BCV_loc BCV_margin
              BCV_size BCV_left BCV_right) as [i1|] eqn:H1.
  - intros [= <-]. left.
    apply (margin_strand_between _ _ _ _ _ _ _ _ _ Hn Hs (Z.le_refl _) H1).
  - destruct (scan_margin_strand ln BCV_left_revcomp BCV_right_revcomp
                BCV_loc_revcomp BCV_margin BCV_size BCV_left BCV_right)
      as [i2|] eqn:H2; [|discriminate].
    intros [= <-]. right.
    apply (margin_strand_between _ _ _ _ _ _ _ _ _ Hn Hsr Hlen H2).
Qed.

Lemma windowed_insert_lies_between_present_flanks_witness :
  (exists pre post,
     py "CCGACCACAAACCTT" = pre ++ py "GAC" ++ py "CACA" ++ py "AACC" ++ post
     /\ 5 - 2 - len (py "GAC") <= len pre)
  \/ (exists pre post,
        py "CCGACCACAAACCTT" = pre ++ py "GGT" ++ py "CACA" ++ py "GTC" ++ post
        /\ 5 - 2 - len (py "GAC") <= len pre).
Proof.
  apply (windowed_insert_lies_between_present_flanks (py "CCGACCACAAACCTT")
           (py "GAC") (py "AACC") (py "GGT") (py "GTC") (py "CACA") 5 2 5 4).
  - lia.
  - vm_compute. discriminate.
  - vm_compute. discriminate.
  - vm_compute. discriminate.
  - reflexivity.
Defined.

(** ** The script's two modes *)

Lemma found_inserts_length (scanner : str -> MatchOutcome) (n : Z)
    (reads : list str) :
  (forall ln ins, scanner ln = Found ins -> len ins = n) ->
  Forall (fun ins => len ins = n) (found_inserts scanner reads).
Proof.
  intros H. apply Forall_forall. intros ins Hin.
  apply in_found_inserts in Hin. destruct Hin as (line & _ & Hf).
  exact (H _ _ Hf).
Qed.

Lemma bc_run_found_lengths
    (complement : ascii -> ascii) (args : Args)
    (barcode variant : str) (variants : list (str * str))
    (reads : list str) (r : Report) :
  mode args = BC ->
  BCVleft args <> [] -> BCVright args <> [] -> barcode <> [] ->
  run complement args ((barcode, variant) :: variants) reads = Returned r ->
  Forall (fun ins => len ins = len barcode) (result r).
Proof.
  intros Hm Hl Hr Hb. apply len_pos in Hb.
  assert (Hl' : upper (BCVleft args) <> []) by now apply upper_nonempty.
  assert (Hlrc : upper (reverse_complement complement (upper (BCVright args))) <> []).
  { now apply upper_nonempty, reverse_complement_nonempty, upper_nonempty. }
  unfold run. rewrite Hm. unfold search_file. simpl.
  destruct (select_scanner (BCVloc args) (BCVmargin args) (BCVlocrevcomp args)).
  - intros [= <-]. unfold barcode_detection. rewrite pass_from_empty. simpl.
    apply found_inserts_length. intros ln ins.
    apply scan_found_length; [exact Hl' | exact Hlrc | lia].
  - destruct (BCVloc args) as [l|], (BCVlocrevcomp args) as [k|]; simpl;
      try (destruct reads; [intros [= <-]; constructor | discriminate]).
    intros [= <-]. unfold barcode_detection_margin. rewrite pass_from_empty.
    simpl. apply found_inserts_length. intros ln ins.
    apply scan_margin_found_length; [exact Hl' | exact Hlrc | lia].
Qed.


(** X8. From the command line, the windowed routine is called exactly
    when [-n] and [-k] are given with values other than 0 and [-m] is
    not given as 0: a margin that is not given is 5. In every other case
    the unwindowed routine is called. *)
Theorem windowed_iff_nonzero_options (c : CommandLine) :
  select_scanner (BCVloc (parse_args c)) (BCVmargin (parse_args c))
    (BCVlocrevcomp (parse_args c)) = Windowed
  <-> (exists l k,
         opt_BCVloc c = Some l /\ l <> 0
         /\ opt_BCVlocrevcomp c = Some k /\ k <> 0)
      /\ opt_BCVmargin c <> Some 0.
Proof.
  rewrite select_scanner_windowed. destruct c as [m l r n mg k s]. simpl.
  split.
  - intros (l' & k' & -> & -> & Hl & Hm & Hk). split.
    + exists l', k'. now repeat split.
    + destruct mg as [z|]; [|discriminate]. intros [= ->]. contradiction.
  - intros [(l' & k' & -> & Hl & -> & Hk) Hm]. exists l', k'.
    repeat split; try assumption.
    destruct mg as [z|]; [|discriminate]. intros ->. contradiction.
Qed.


(** * The quality plots *)

(** ** How many records a loop with a limit reads *)

Lemma firstn_at_least_one {A : Type} (k : Z) (x : A) (l : list A) :
  1 <= k -> firstn (Z.to_nat (k + 1)) (x :: l) = x :: firstn (Z.to_nat k) l.
Proof.
  intros H. replace (Z.to_nat (k + 1)) with (S (Z.to_nat k)) by lia. reflexivity.
Qed.

Lemma sizes_loop_reads (records : list str) (limit : Z) :
  forall (c : Z) (sizes : list Z),
    sizes_loop records limit c sizes
    = sizes ++ map len (firstn (Z.to_nat (Z.max 1 (limit - c + 1))) records).
Proof.
  induction records as [|record rest IH]; intros c sizes.
  - simpl. now rewrite firstn_nil, app_nil_r.
  - simpl sizes_loop. destruct (Z.ltb_spec limit (c + 1)) as [Hlt|Hge].
    + replace (Z.max 1 (limit - c + 1)) with 1 by lia. reflexivity.
    + rewrite IH.
      replace (Z.max 1 (limit - c + 1)) with (Z.max 1 (limit - (c + 1) + 1) + 1)
        by lia.
      rewrite firstn_at_least_one by lia. simpl map.
      now rewrite <- app_assoc.
Qed.

(** X10. The loop of [plot_seq_length_dist] collects the lengths of the
    first [limit + 1] records of the file, in file order, and of all of
    them if the file has fewer; whatever the limit, the first record is
    read. With the default limit of 100000 the plot is drawn from up to
    100001 records. *)
Theorem length_plot_reads_limit_plus_one_records
    (records : list str) (limit : Z) :
  seq_length_sizes records limit = map len (records_read records limit)
  /\ len (seq_length_sizes records limit)
     = Z.min (len records) (Z.max 1 (limit + 1)).
Proof.
  unfold seq_length_sizes, records_read. rewrite sizes_loop_reads.
  rewrite Z.sub_0_r. simpl. split; [reflexivity|].
  unfold len. rewrite length_map, length_firstn. lia.
Qed.

(** ** The per-base counts *)

Lemma incr_at_in_range (l : list Z) :
  forall pos : nat,
    (pos < length l)%nat ->
    exists l',
      incr_at l pos = Some l' /\ length l' = length l
      /\ forall q, nth q l' 0 = nth q l 0 + (if (q =? pos)%nat then 1 else 0).
Proof.
  induction l as [|x l IH]; intros pos Hpos; [simpl in Hpos; lia|].
  destruct pos as [|pos]; simpl.
  - exists (x + 1 :: l). repeat split. intros [|q]; simpl; lia.
  - destruct (IH pos) as (l' & -> & Hlen & Hnth); [simpl in Hpos; lia|].
    exists (x :: l'). simpl. repeat split; [now rewrite Hlen|].
    intros [|q]; simpl; [lia | apply Hnth].
Qed.

Lemma hit_cons (b : Base) (c : ascii) (seq : str) (pos0 q : nat) :
  hit b (c :: seq) pos0 q
  = (if (q =? pos0)%nat
     then match base_of c with
          | Some b' => if base_eqb b' b then 1 else 0
          | None => 0
          end
     else 0)
    + hit b seq (S pos0) q.
Proof.
  unfold hit.
  destruct (Nat.ltb_spec q pos0) as [Hlt|Hge].
  - destruct (Nat.eqb_spec q pos0); [lia|].
    destruct (Nat.ltb_spec q (S pos0)); [reflexivity | lia].
  - destruct (Nat.eqb_spec q pos0) as [->|Hne].
    + rewrite Nat.sub_diag. simpl nth_error.
      destruct (Nat.ltb_spec pos0 (S pos0)); [lia | lia].
    + destruct (Nat.ltb_spec q (S pos0)); [lia|].
      replace (q - pos0)%nat with (S (q - S pos0)) by lia. reflexivity.
Qed.

Lemma base_eqb_eq (a b : Base) : base_eqb a b = true <-> a = b.
Proof. destruct a, b; simpl; split; intros H; congruence. Qed.

Lemma count_bases_in_range (M : nat) (seq : str) :
  forall (pos0 : nat) (bc : BaseCounts),
    (forall b, length (bc b) = M) ->
    (pos0 + length seq <= M)%nat ->
    exists bc',
      count_bases bc seq pos0 = Some bc'
      /\ (forall b, length (bc' b) = M)
      /\ forall b q, nth q (bc' b) 0 = nth q (bc b) 0 + hit b seq pos0 q.
Proof.
  induction seq as [|c seq IH]; intros pos0 bc Hlen Hfit.
  - exists bc. simpl. repeat split; [exact Hlen|]. intros b q.
    unfold hit. destruct (q <? pos0)%nat; [lia|].
    destruct (q - pos0)%nat; simpl; lia.
  - simpl in Hfit. simpl count_bases.
    destruct (base_of c) as [b0|] eqn:Hc.
    + destruct (incr_at_in_range (bc b0) pos0) as (l & -> & Hl & Hnth);
        [rewrite Hlen; lia|].
      destruct (IH (S pos0) (set_counts bc b0 l)) as (bc' & Hrun & Hlen' & Hcnt).
      * intros b. unfold set_counts.
        destruct (base_eqb b b0); [now rewrite Hl, Hlen | apply Hlen].
      * lia.
      * exists bc'. repeat split; [exact Hrun | exact Hlen'|].
        intros b q. rewrite Hcnt, hit_cons, Hc. unfold set_counts.
        destruct (base_eqb b b0) eqn:Hb.
        -- apply base_eqb_eq in Hb. subst b0.
           replace (base_eqb b b) with true by (symmetry; now apply base_eqb_eq).
           rewrite Hnth. lia.
        -- replace (base_eqb b0 b) with false.
           ++ destruct (q =? pos0)%nat; lia.
           ++ destruct b0, b; simpl in *; congruence.
    + destruct (IH (S pos0) bc Hlen) as (bc' & Hrun & Hlen' & Hcnt); [lia|].
      exists bc'. repeat split; [exact Hrun | exact Hlen'|].
      intros b q. rewrite Hcnt, hit_cons, Hc.
      destruct (q =? pos0)%nat; lia.
Qed.

Lemma longest_nonneg (records : list str) : 0 <= longest records.
Proof. induction records as [|r rs IH]; simpl; lia. Qed.

Lemma longest_snoc (records : list str) (seq : str) :
  longest (records ++ [seq]) = Z.max (longest records) (len seq).
Proof.
  pose proof (len_nonneg seq).
  induction records as [|r rs IH]; simpl; [lia|]. rewrite IH. lia.
Qed.

Lemma letters_at_snoc (b : Base) (q : nat) (records : list str) (seq : str) :
  letters_at b q (records ++ [seq]) = letters_at b q records + hit b seq 0 q.
Proof.
  unfold letters_at, hit, len. rewrite filter_app, length_app, Nat2Z.inj_add.
  f_equal. simpl. rewrite Nat.sub_0_r.
  destruct (nth_error seq q) as [c|]; [|reflexivity].
  destruct (base_of c) as [b'|]; [|reflexivity].
  destruct (base_eqb b' b); reflexivity.
Qed.

Lemma nth_extend_to (l : list Z) (n : Z) (q : nat) :
  nth q (extend_to l n) 0 = nth q l 0.
Proof.
  unfold extend_to. destruct (Nat.lt_ge_cases q (length l)) as [Hlt|Hge].
  - now rewrite app_nth1.
  - rewrite app_nth2 by exact Hge. rewrite (nth_overflow l) by exact Hge.
    apply nth_repeat.
Qed.

Lemma length_extend_to (l : list Z) (n : Z) :
  length (extend_to l n) = Z.to_nat (Z.max (len l) n).
Proof.
  unfold extend_to, len. rewrite length_app, repeat_length. lia.
Qed.

Lemma content_record_keeps (st : Content) (rs : list str) (seq : str) :
  content_of st rs ->
  exists st', content_record st seq = Some st' /\ content_of st' (rs ++ [seq]).
Proof.
  intros (Hn & Hb & Hlen & Hcnt). unfold content_record.
  pose proof (longest_nonneg rs) as HM. pose proof (len_nonneg seq) as Hs.
  set (bc1 := if len (base_counts st base_A) <? len seq
              then fun key => extend_to (base_counts st key) (len seq)
              else base_counts st).
  assert (Hlen1 : forall b, length (bc1 b)
                            = Z.to_nat (Z.max (longest rs) (len seq))).
  { intros b. unfold bc1. rewrite (Hlen base_A).
    destruct (Z.ltb_spec (longest rs) (len seq)).
    - rewrite length_extend_to, Hlen. reflexivity.
    - specialize (Hlen b). unfold len in Hlen. lia. }
  assert (Hnth1 : forall b q, nth q (bc1 b) 0 = nth q (base_counts st b) 0).
  { intros b q. unfold bc1.
    destruct (len (base_counts st base_A) <? len seq);
      [apply nth_extend_to | reflexivity]. }
  destruct (count_bases_in_range _ seq 0 bc1 Hlen1) as (bc' & -> & Hlen' & Hcnt').
  { unfold len in *. lia. }
  eexists. split; [reflexivity|]. unfold content_of. simpl.
  repeat split.
  - rewrite Hn. unfold len. rewrite length_app. simpl. lia.
  - rewrite Hb, map_app. reflexivity.
  - intros b. rewrite longest_snoc. unfold len at 1. rewrite Hlen'. lia.
  - intros b q. rewrite Hcnt', Hnth1, Hcnt, letters_at_snoc. reflexivity.
Qed.

Lemma content_loop_keeps (records : list str) (limit : Z) :
  forall (c : Z) (st : Content) (rs : list str),
    content_of st rs ->
    exists st',
      content_loop records limit c st = Some st'
      /\ content_of st'
           (rs ++ firstn (Z.to_nat (Z.max 1 (limit - c + 1))) records).
Proof.
  induction records as [|seq rest IH]; intros c st rs Hst.
  - exists st. simpl. rewrite firstn_nil, app_nil_r. now split.
  - simpl content_loop.
    destruct (content_record_keeps st rs seq Hst) as (st1 & -> & Hst1).
    destruct (Z.ltb_spec limit (c + 1)) as [Hlt|Hge].
    + exists st1. split; [reflexivity|].
      replace (Z.max 1 (limit - c + 1)) with 1 by lia. exact Hst1.
    + destruct (IH (c + 1) st1 (rs ++ [seq]) Hst1) as (st' & -> & Hst').
      exists st'. split; [reflexivity|].
      replace (Z.max 1 (limit - c + 1)) with (Z.max 1 (limit - (c + 1) + 1) + 1)
        by lia.
      rewrite firstn_at_least_one by lia.
      now rewrite <- app_assoc in Hst'.
Qed.

Lemma base_seq_content_keeps (records : list str) (limit : Z) :
  exists st,
    base_seq_content records limit = Some st
    /\ content_of st (records_read records limit).
Proof.
  unfold base_seq_content, records_read.
  destruct (content_loop_keeps records limit 0 (mkContent 0 [] no_counts) [])
    as (st & Hrun & Hst).
  - unfold content_of, letters_at, len. simpl. repeat split.
    intros b [|q]; reflexivity.
  - exists st. split; [exact Hrun|]. now rewrite Z.sub_0_r in Hst.
Qed.

(** X11. The loop of [plot_base_seq_content] never indexes a list of
    counts out of range: on every file it runs through, and afterwards
    the four lists of counts all have the length of the longest record
    read, [total_sequences] is the number of records read and
    [total_bases] lists their lengths. *)
Theorem base_counts_are_indexed_in_range (records : list str) (limit : Z) :
  exists st,
    base_seq_content records limit = Some st
    /\ total_sequences st = len (records_read records limit)
    /\ total_bases st = map len (records_read records limit)
    /\ forall b, len (base_counts st b) = longest (records_read records limit).
Proof.
  destruct (base_seq_content_keeps records limit) as (st & Hrun & H1 & H2 & H3 & _).
  exists st. now repeat split.
Qed.

(** X12. After the loop of [plot_base_seq_content], the count of a key
    at a position is the number of records read that have exactly that
    letter, in upper case, at that position; letters other than [A],
    [T], [G] and [C], among them the lower-case ones, are counted
    nowhere. *)
Theorem base_counts_count_letters_by_position
    (records : list str) (limit : Z) (st : Content) (b : Base) (pos : nat) :
  base_seq_content records limit = Some st ->
  nth pos (base_counts st b) 0 = letters_at b pos (records_read records limit).
Proof.
  intros H. destruct (base_seq_content_keeps records limit) as (st' & Hrun & Hst).
  rewrite H in Hrun. injection Hrun as <-. apply Hst.
Qed.

(** Three records read with limit 1: the first two are read; both
    have an upper-case [A] at position 0, and at position 1 the first
    has a lower-case [c] and the second an [N]. *)
Lemma base_counts_count_letters_by_position_witness :
  exists st,
    base_seq_content [py "AcA"; py "AN"; py "CAG"] 1 = Some st
    /\ nth 0 (base_counts st base_A) 0
       = letters_at base_A 0 (records_read [py "AcA"; py "AN"; py "CAG"] 1)
    /\ nth 0 (base_counts st base_A) 0 = 2
    /\ nth 1 (base_counts st base_C) 0 = 0.
Proof.
  eexists. split; [vm_compute; reflexivity|]. split.
  - apply (base_counts_count_letters_by_position
             [py "AcA"; py "AN"; py "CAG"] 1 _ base_A 0).
    vm_compute. reflexivity.
  - split; reflexivity.
Defined.

(** * The variants and contaminations dictionaries *)

(** ** Splitting a line *)

Lemma no_space_app (a b : str) :
  no_space (a ++ b) = no_space a && no_space b.
Proof. unfold no_space. apply forallb_app. Qed.

Lemma split_from_tokens (s : str) :
  forall word, no_space word = true -> Forall token (split_from s word).
Proof.
  induction s as [|c s IH]; intros word Hw; simpl.
  - destruct word; constructor; [split; [discriminate | exact Hw] | constructor].
  - destruct (is_space c) eqn:Hc.
    + destruct word as [|x word]; [now apply IH|].
      constructor; [split; [discriminate | exact Hw] | now apply IH].
    + apply IH. rewrite no_space_app, Hw. simpl. now rewrite Hc.
Qed.

Lemma split_from_lstrip (s : str) : split_from (lstrip s) [] = split_from s [].
Proof.
  induction s as [|c s IH]; [reflexivity|]. simpl.
  destruct (is_space c) eqn:Hc; [exact IH|]. simpl. now rewrite Hc.
Qed.

Lemma split_from_trailing_space (s : str) (c : ascii) :
  is_space c = true ->
  forall word, split_from (s ++ [c]) word = split_from s word.
Proof.
  intros Hc. induction s as [|x s IH]; intros word; simpl.
  - rewrite Hc. now destruct word.
  - destruct (is_space x); [|apply IH]. destruct word; now rewrite IH.
Qed.

Lemma rstrip_snoc (s : str) (c : ascii) :
  rstrip (s ++ [c]) = if is_space c then rstrip s else s ++ [c].
Proof.
  unfold rstrip. rewrite rev_app_distr. simpl.
  destruct (is_space c); [reflexivity|]. simpl. now rewrite rev_involutive.
Qed.

Lemma split_from_rstrip (s : str) :
  forall word, split_from (rstrip s) word = split_from s word.
Proof.
  induction s as [|c s IH] using rev_ind; intros word; [reflexivity|].
  rewrite rstrip_snoc. destruct (is_space c) eqn:Hc; [|reflexivity].
  now rewrite IH, split_from_trailing_space.
Qed.

Lemma split_strip (s : str) : split (strip s) = split s.
Proof. unfold split, strip. now rewrite split_from_rstrip, split_from_lstrip. Qed.

Lemma split_from_nil_iff (s : str) :
  forall word,
    split_from s word = [] <-> word = [] /\ forallb is_space s = true.
Proof.
  induction s as [|c s IH]; intros word; simpl.
  - destruct word; split; intros H; try discriminate; try tauto.
    destruct H as [H _]. discriminate.
  - destruct (is_space c); simpl.
    + destruct word as [|x word].
      * rewrite IH. tauto.
      * split; [discriminate | intros [H _]; discriminate].
    + rewrite IH. split; [intros [H _] | intros [_ H]; discriminate].
      destruct word; discriminate.
Qed.

Lemma lstrip_nil_iff (s : str) : lstrip s = [] <-> forallb is_space s = true.
Proof.
  induction s as [|c s IH]; simpl; [tauto|].
  destruct (is_space c); simpl; [exact IH|]. split; discriminate.
Qed.

Lemma forallb_rev {A : Type} (f : A -> bool) (l : list A) :
  forallb f (rev l) = forallb f l.
Proof.
  induction l as [|x l IH]; [reflexivity|]. simpl.
  rewrite forallb_app, IH. simpl. rewrite andb_true_r. apply andb_comm.
Qed.

Lemma lstrip_spaces (s : str) :
  forallb is_space (lstrip s) = forallb is_space s.
Proof.
  induction s as [|c s IH]; [reflexivity|]. simpl.
  destruct (is_space c) eqn:Hc; simpl; [exact IH | now rewrite Hc].
Qed.

Lemma strip_nil_iff (s : str) : strip s = [] <-> split s = [].
Proof.
  unfold strip, rstrip, split. rewrite split_from_nil_iff.
  split.
  - intros H. split; [reflexivity|].
    apply (f_equal (@rev ascii)) in H. rewrite rev_involutive in H. simpl in H.
    apply lstrip_nil_iff in H. now rewrite forallb_rev, lstrip_spaces in H.
  - intros [_ H]. replace (lstrip (rev (lstrip s))) with (@nil ascii); [reflexivity|].
    symmetry. apply lstrip_nil_iff. now rewrite forallb_rev, lstrip_spaces.
Qed.

(** X13. What [line.strip().split()] yields for a line of the variants
    or contaminations file: the fields are not empty and hold no white
    space; stripping the line first changes nothing; and the lines that
    the test [if line.strip()] leaves out are exactly the lines without
    a field. *)
Theorem fields_of_a_line (line : str) :
  Forall token (split (strip line))
  /\ split (strip line) = split line
  /\ (strip line = [] <-> split line = []).
Proof.
  split; [|split].
  - rewrite split_strip. now apply split_from_tokens.
  - apply split_strip.
  - apply strip_nil_iff.
Qed.

(** ** Dictionaries *)

Lemma str_eqb_eq (a b : str) : str_eqb a b = true <-> a = b.
Proof.
  revert b. induction a as [|x a IH]; intros [|y b]; simpl;
    try (split; [discriminate | intros H; discriminate]);
    [split; reflexivity|].
  rewrite andb_true_iff, Ascii.eqb_eq, IH. split.
  - intros [-> ->]. reflexivity.
  - intros [= -> ->]. now split.
Qed.

Lemma str_eqb_refl (a : str) : str_eqb a a = true.
Proof. now apply str_eqb_eq. Qed.

Lemma str_eqb_neq (a b : str) : str_eqb a b = false <-> a <> b.
Proof.
  pose proof (str_eqb_eq a b) as [H1 H2]. destruct (str_eqb a b); split.
  - discriminate.
  - intros H'. elim H'. now apply H1.
  - intros _ E. specialize (H2 E). discriminate.
  - reflexivity.
Qed.

Lemma dict_get_set (d : Dict) (k v k' : str) :
  dict_get (dict_set d k v) k'
  = if str_eqb k' k then Some v else dict_get d k'.
Proof.
  induction d as [|[k1 v1] d IH]; simpl; [reflexivity|].
  destruct (str_eqb k k1) eqn:E; simpl.
  - apply str_eqb_eq in E. subst k1. now destruct (str_eqb k' k).
  - rewrite IH. destruct (str_eqb k' k1) eqn:E1; [|reflexivity].
    apply str_eqb_eq in E1. subst k1.
    destruct (str_eqb k' k) eqn:E2; [|reflexivity].
    apply str_eqb_eq in E2. subst k'. rewrite str_eqb_refl in E. discriminate.
Qed.

Lemma dict_get_in (d : Dict) (k : str) :
  dict_get d k <> None <-> In k (map fst d).
Proof.
  induction d as [|[k1 v1] d IH]; simpl; [tauto|].
  destruct (str_eqb k k1) eqn:E.
  - apply str_eqb_eq in E. split; [intros _; now left | discriminate].
  - apply str_eqb_neq in E. rewrite IH. split; [tauto | intros [H|H]; congruence].
Qed.

Lemma dict_set_keys (d : Dict) (k v : str) :
  map fst (dict_set d k v)
  = if dict_mem d k then map fst d else map fst d ++ [k].
Proof.
  unfold dict_mem. induction d as [|[k1 v1] d IH]; simpl; [reflexivity|].
  destruct (str_eqb k k1) eqn:E; simpl; [reflexivity|].
  rewrite IH. now destruct (dict_get d k).
Qed.

Lemma dict_set_items (d : Dict) (k v : str) (P : str -> Prop) :
  Forall (fun item => P (fst item) /\ P (snd item)) d -> P k -> P v ->
  Forall (fun item => P (fst item) /\ P (snd item)) (dict_set d k v).
Proof.
  intros Hd Hk Hv. induction Hd as [|[k1 v1] d [H1 H2] Hd IH]; simpl.
  - repeat constructor; assumption.
  - destruct (str_eqb k k1); constructor; simpl; auto.
Qed.

Lemma dict_set_nodup (d : Dict) (k v : str) :
  NoDup (map fst d) -> NoDup (map fst (dict_set d k v)).
Proof.
  intros H. rewrite dict_set_keys. unfold dict_mem.
  destruct (dict_get d k) eqn:E; [exact H|].
  apply NoDup_app; [exact H | repeat constructor; intros [] |].
  intros x Hx [<-|[]]. apply dict_get_in in Hx. congruence.
Qed.

Lemma dict_of_rows_some (rows : list (list str)) :
  forall d d',
    dict_of_rows rows d = Some d' ->
    (forall k, dict_get d' k
               = match last_value rows k with
                 | Some v => Some v
                 | None => dict_get d k
                 end)
    /\ (NoDup (map fst d) -> NoDup (map fst d'))
    /\ (Forall (fun row => Forall token row) rows ->
        Forall (fun item => token (fst item) /\ token (snd item)) d ->
        Forall (fun item => token (fst item) /\ token (snd item)) d')
    /\ (forall k0 v0 rest,
          d = (k0, v0) :: rest -> exists v' rest', d' = (k0, v') :: rest').
Proof.
  induction rows as [|row rows IH]; intros d d'; simpl.
  - intros [= <-]. repeat split; auto. intros k0 v0 rest ->. eauto.
  - destruct row as [|k [|v [|x row]]]; try discriminate.
    intros H. destruct (IH _ _ H) as (Hget & Hnd & Htok & Hhd).
    repeat split.
    + intros k0. rewrite Hget, dict_get_set.
      destruct (last_value rows k0); [reflexivity|].
      now destruct (str_eqb k0 k).
    + intros Hd. now apply Hnd, dict_set_nodup.
    + intros Hr Hd. inversion Hr as [|? ? Hrow Hrows]; subst.
      apply Htok; [exact Hrows|].
      inversion Hrow as [|? ? Hk Hrow']; subst.
      inversion Hrow' as [|? ? Hv _]; subst.
      now apply dict_set_items.
    + intros k0 v0 rest ->. simpl in Hhd.
      destruct (str_eqb k k0); eapply Hhd; reflexivity.
Qed.

Lemma dict_of_rows_none (rows : list (list str)) :
  forall d,
    dict_of_rows rows d = None <-> exists row, In row rows /\ length row <> 2%nat.
Proof.
  induction rows as [|row rows IH]; intros d; simpl.
  - split; [discriminate | intros (row & [] & _)].
  - destruct row as [|k [|v [|x row]]].
    + split; [intros _; exists []; split; [now left | discriminate] | reflexivity].
    + split; [intros _; exists [k]; split; [now left | discriminate] | reflexivity].
    + rewrite IH. split.
      * intros (row & Hin & Hlen). exists row. split; [now right | exact Hlen].
      * intros (row & [<-|Hin] & Hlen); [simpl in Hlen; lia|]. now exists row.
    + split; [intros _; exists (k :: v :: x :: row); split; [now left | simpl; lia]
             | reflexivity].
Qed.

(** The rows that [read_dict] hands to [dict], in terms of [split]
    alone. *)
Lemma read_dict_rows (lines : list str) :
  read_dict lines
  = dict_of_rows
      (filter (fun row => match row with [] => false | _ :: _ => true end)
         (map split lines)) [].
Proof.
  unfold read_dict. f_equal.
  induction lines as [|line lines IH]; [reflexivity|]. cbn [map filter].
  pose proof (strip_nil_iff line) as Hs.
  destruct (strip line) eqn:E1; destruct (split line) eqn:E2.
  - exact IH.
  - destruct Hs as [Hs _]. specialize (Hs eq_refl). discriminate.
  - destruct Hs as [_ Hs]. specialize (Hs eq_refl). discriminate.
  - cbn [map]. rewrite split_strip, E2. now f_equal.
Qed.

Lemma last_value_filter (rows : list (list str)) (k : str) :
  last_value (filter (fun row => match row with [] => false | _ :: _ => true end)
                rows) k
  = last_value rows k.
Proof.
  induction rows as [|row rows IH]; [reflexivity|]. simpl.
  destruct row as [|x row]; simpl; rewrite IH; [|reflexivity].
  now destruct (last_value rows k).
Qed.

(** X14. The variants or contaminations file is refused, with the
    [ValueError] of [dict], exactly when one of its lines that is not
    blank does not have exactly two fields: a variant name with a space
    in it, or a barcode without a name. *)
Theorem dictionary_file_is_refused_iff (lines : list str) :
  read_dict lines = None
  <-> exists line,
        In line lines /\ split line <> [] /\ length (split line) <> 2%nat.
Proof.
  rewrite read_dict_rows, dict_of_rows_none. split.
  - intros (row & Hin & Hlen). apply filter_In in Hin. destruct Hin as [Hin Hne].
    apply in_map_iff in Hin. destruct Hin as (line & <- & Hline).
    exists line. repeat split; [exact Hline | | exact Hlen].
    intros E. rewrite E in Hne. discriminate.
  - intros (line & Hin & Hne & Hlen). exists (split line). split; [|exact Hlen].
    apply filter_In. split; [now apply in_map|].
    destruct (split line); [congruence | reflexivity].
Qed.

Lemma split_tokens_rows (lines : list str) :
  Forall (fun row => Forall token row)
    (filter (fun row => match row with [] => false | _ :: _ => true end)
       (map split lines)).
Proof.
  apply Forall_forall. intros row Hin. apply filter_In in Hin.
  destruct Hin as [Hin _]. apply in_map_iff in Hin.
  destruct Hin as (line & <- & _). now apply split_from_tokens.
Qed.

(** X15. When the variants or contaminations file is taken, the
    dictionary gives for every barcode the name on the last line that
    begins with that barcode, and nothing for a barcode that begins no
    line; it holds every barcode once; and its barcodes and names are
    not empty and hold no white space. *)
Theorem dictionary_holds_last_line_of_each_barcode
    (lines : list str) (d : Dict) :
  read_dict lines = Some d ->
  (forall k, dict_get d k = last_value (map split lines) k)
  /\ NoDup (map fst d)
  /\ Forall (fun item => token (fst item) /\ token (snd item)) d.
Proof.
  rewrite read_dict_rows. intros H.
  destruct (dict_of_rows_some _ _ _ H) as (Hget & Hnd & Htok & _).
  repeat split.
  - intros k. rewrite Hget, last_value_filter. simpl.
    now destruct (last_value (map split lines) k).
  - apply Hnd. constructor.
  - apply Htok; [apply split_tokens_rows | constructor].
Qed.

Lemma dictionary_holds_last_line_of_each_barcode_witness :
  (forall k,
     dict_get [(py "ACGT", py "cap3"); (py "TTTT", py "cap2")] k
     = last_value
         (map split
            [tab_line (py "ACGT", py "cap1"); [ascii_of_nat 10];
             py "  TTTT cap2 "; tab_line (py "ACGT", py "cap3")]) k)
  /\ NoDup (map fst [(py "ACGT", py "cap3"); (py "TTTT", py "cap2")])
  /\ Forall (fun item => token (fst item) /\ token (snd item))
       [(py "ACGT", py "cap3"); (py "TTTT", py "cap2")].
Proof.
  apply (dictionary_holds_last_line_of_each_barcode
           [tab_line (py "ACGT", py "cap1"); [ascii_of_nat 10];
            py "  TTTT cap2 "; tab_line (py "ACGT", py "cap3")]).
  reflexivity.
Defined.

(** ** Writing a dictionary out and reading it back *)

Lemma split_from_word (w rest : str) :
  no_space w = true ->
  forall word, split_from (w ++ rest) word = split_from rest (word ++ w).
Proof.
  induction w as [|c w IH]; intros Hw word; simpl.
  - now rewrite app_nil_r.
  - simpl in Hw. apply andb_true_iff in Hw. destruct Hw as [Hc Hw].
    apply negb_true_iff in Hc. rewrite Hc, IH by exact Hw.
    now rewrite <- app_assoc.
Qed.

Lemma split_tab_line (k v : str) :
  token k -> token v -> split (tab_line (k, v)) = [k; v].
Proof.
  intros [Hk Hks] [Hv Hvs]. unfold split, tab_line. simpl fst. simpl snd.
  rewrite split_from_word by exact Hks. simpl.
  destruct k as [|x k]; [congruence|]. f_equal.
  rewrite split_from_word by exact Hvs. simpl.
  destruct v as [|y v]; [congruence | reflexivity].
Qed.

Lemma dict_set_new (d : Dict) (k v : str) :
  ~ In k (map fst d) -> dict_set d k v = d ++ [(k, v)].
Proof.
  induction d as [|[k1 v1] d IH]; simpl; intros H; [reflexivity|].
  destruct (str_eqb k k1) eqn:E.
  - apply str_eqb_eq in E. subst. elim H. now left.
  - rewrite IH; [reflexivity|]. intros Hin. apply H. now right.
Qed.

Lemma dict_of_item_rows (items : Dict) :
  forall d,
    NoDup (map fst (d ++ items)) ->
    dict_of_rows (map (fun item => [fst item; snd item]) items) d
    = Some (d ++ items).
Proof.
  induction items as [|[k v] items IH]; intros d Hnd; simpl.
  - now rewrite app_nil_r.
  - assert (Hk : ~ In k (map fst d)).
    { rewrite map_app in Hnd. simpl in Hnd.
      apply NoDup_remove_2 in Hnd. intros Hin. apply Hnd.
      apply in_or_app. now left. }
    rewrite dict_set_new by exact Hk. rewrite IH; rewrite <- app_assoc;
      [reflexivity | exact Hnd].
Qed.

(** X16. A dictionary written out as a tab-delimited file, one line for
    each item, is read back as it was, items in the same order, provided
    its barcodes are all different and its barcodes and names are not
    empty and hold no white space. *)
Theorem dictionary_file_round_trip (items : Dict) :
  NoDup (map fst items) ->
  Forall (fun item => token (fst item) /\ token (snd item)) items ->
  read_dict (map tab_line items) = Some items.
Proof.
  intros Hnd Htok. rewrite read_dict_rows.
  replace (filter _ (map split (map tab_line items)))
    with (map (fun item : str * str => [fst item; snd item]) items).
  - now apply (dict_of_item_rows items []).
  - induction Htok as [|[k v] items [Hk Hv] Htok IH]; [reflexivity|].
    simpl map. rewrite split_tab_line by assumption. simpl.
    f_equal. apply IH. now inversion Hnd.
Qed.

Lemma dictionary_file_round_trip_witness :
  read_dict (map tab_line [(py "ACGT", py "cap1"); (py "TTGA", py "cap2")])
  = Some [(py "ACGT", py "cap1"); (py "TTGA", py "cap2")].
Proof.
  apply dictionary_file_round_trip.
  - repeat constructor; simpl; intuition discriminate.
  - repeat constructor; discriminate.
Defined.

(** ** Mode BC from the variants file *)

(** X17. In mode BC with non-empty flanks, when the run on a file
    returns, the variants file has a first line with fields, the insert
    size is the length of the first field of that line, it is at least
    1, and every barcode extracted has that length: whatever [-s] says,
    and whatever the lengths of the other barcodes of the variants
    file. *)
Theorem bc_mode_insert_size_is_first_barcode_of_file
    (complement : ascii -> ascii) (args : Args)
    (variant_lines reads : list str) (r : Report) :
  mode args = BC -> BCVleft args <> [] -> BCVright args <> [] ->
  run_BC_from_file complement args variant_lines reads = Some (Returned r) ->
  exists barcode variant rows,
    filter (fun row => match row with [] => false | _ :: _ => true end)
      (map split variant_lines) = [barcode; variant] :: rows
    /\ 1 <= len barcode
    /\ Forall (fun ins => len ins = len barcode) (result r).
Proof.
  intros Hm Hl Hr. unfold run_BC_from_file.
  destruct (read_dict variant_lines) as [d|] eqn:Hd; [|discriminate].
  intros [= Hrun]. rewrite read_dict_rows in Hd.
  pose proof (split_tokens_rows variant_lines) as Htok.
  destruct (filter _ (map split variant_lines)) as [|row rows] eqn:Hrows.
  - simpl in Hd. injection Hd as <-. unfold run in Hrun. rewrite Hm in Hrun.
    discriminate.
  - simpl in Hd. destruct row as [|k [|v [|x row]]]; try discriminate.
    destruct (dict_of_rows_some _ _ _ Hd) as (_ & _ & _ & Hhd).
    destruct (Hhd k v [] eq_refl) as (v' & rest' & ->).
    inversion Htok as [|? ? Hrow _]; subst.
    inversion Hrow as [|? ? [Hk _] _]; subst.
    exists k, v, rows. repeat split.
    + now apply len_pos.
    + exact (bc_run_found_lengths complement args k v' rest' reads r
               Hm Hl Hr Hk Hrun).
Qed.

Lemma bc_mode_insert_size_is_first_barcode_of_file_witness :
  exists barcode variant rows,
    filter (fun row => match row with [] => false | _ :: _ => true end)
      (map split [tab_line (py "CACA", py "cap1");
                  tab_line (py "TTTTTT", py "cap2")])
    = [barcode; variant] :: rows
    /\ 1 <= len barcode
    /\ Forall (fun ins => len ins = len barcode) [py "AAAA"; py "CACA"].
Proof.
  apply (bc_mode_insert_size_is_first_barcode_of_file dna_complement
           (mkArgs BC (py "gac") (py "aacc") None 5 None None)
           [tab_line (py "CACA", py "cap1"); tab_line (py "TTTTTT", py "cap2")]
           [py "ccgacaaaaaacctt"; py "ACGTACGT"; py "TTGGTTCACAGTCAA"]
           (mkReport [py "AAAA"; py "CACA"] 3 1 [15; 8; 15])).
  - reflexivity.
  - discriminate.
  - discriminate.
  - reflexivity.
Defined.

(** ** The contaminations dictionary *)

Lemma contaminations_loop_get (raw variants : Dict) (keys : list str) :
  forall acc : Dict,
    (forall c, In c keys -> In c (map fst raw)) ->
    exists cont,
      contaminations_loop keys raw variants acc = Some cont
      /\ forall k,
           dict_get cont k
           = if existsb (str_eqb k) keys && negb (dict_mem variants k)
             then dict_get raw k
             else dict_get acc k.
Proof.
  induction keys as [|c keys IH]; intros acc Hkeys; simpl.
  - exists acc. split; [reflexivity | reflexivity].
  - assert (Hrest : forall c', In c' keys -> In c' (map fst raw)).
    { intros c' H. apply Hkeys. now right. }
    destruct (dict_mem variants c) eqn:Hmem.
    + destruct (IH acc Hrest) as (cont & -> & Hget).
      exists cont. split; [reflexivity|]. intros k. rewrite Hget.
      destruct (str_eqb k c) eqn:E; [|reflexivity].
      apply str_eqb_eq in E. subst k. rewrite Hmem. simpl.
      now rewrite !andb_false_r.
    + destruct (dict_get raw c) as [v|] eqn:Hraw.
      * destruct (IH (dict_set acc c v) Hrest) as (cont & -> & Hget).
        exists cont. split; [reflexivity|]. intros k.
        rewrite Hget, dict_get_set.
        destruct (str_eqb k c) eqn:E; [|reflexivity].
        apply str_eqb_eq in E. subst k. rewrite Hmem, Hraw. simpl.
        now destruct (existsb (str_eqb c) keys).
      * exfalso. assert (Hin : In c (map fst raw)) by (apply Hkeys; now left).
        apply dict_get_in in Hin. congruence.
Qed.

Lemma existsb_str_eqb (k : str) (keys : list str) :
  existsb (str_eqb k) keys = true <-> In k keys.
Proof.
  rewrite existsb_exists. split.
  - intros (x & Hin & E). apply str_eqb_eq in E. now subst.
  - intros H. exists k. split; [exact H | apply str_eqb_refl].
Qed.

(** X18. The loop that builds [contaminations] never fails for want of
    a key, and the dictionary it builds gives, for a barcode that is not
    a barcode of [variants], what [contaminationsraw] gives, and nothing
    for a barcode of [variants]: a contaminating barcode that is also an
    expected one is dropped. *)
Theorem contaminations_leave_out_the_variants (contaminationsraw variants : Dict) :
  exists contaminations,
    remove_variants contaminationsraw variants = Some contaminations
    /\ forall k,
         dict_get contaminations k
         = if dict_mem variants k then None else dict_get contaminationsraw k.
Proof.
  unfold remove_variants.
  destruct (contaminations_loop_get contaminationsraw variants
              (map fst contaminationsraw) []) as (cont & Hrun & Hget); [auto|].
  exists cont. split; [exact Hrun|]. intros k. rewrite Hget. simpl.
  destruct (dict_mem variants k); simpl.
  - now rewrite andb_false_r.
  - rewrite andb_true_r.
    destruct (existsb (str_eqb k) (map fst contaminationsraw)) eqn:E;
      [reflexivity|].
    destruct (dict_get contaminationsraw k) eqn:G; [|reflexivity].
    assert (Hin : In k (map fst contaminationsraw)).
    { apply dict_get_in. congruence. }
    apply existsb_str_eqb in Hin. congruence.
Qed.

(** * Reads built around an insert *)

Lemma slice_middle (a m b : str) :
  slice (a ++ m ++ b) (len a) (len a + len m) = m.
Proof.
  pose proof (len_nonneg a). pose proof (len_nonneg m). pose proof (len_nonneg b).
  unfold slice, slice_index. rewrite !len_app.
  destruct (Z.ltb_spec (len a) 0); [lia|].
  destruct (Z.ltb_spec (len a + len m) 0); [lia|].
  rewrite !Z.min_l by lia.
  replace (len a + len m - len a) with (len m) by lia.
  unfold len. rewrite !Nat2Z.id, skipn_app, skipn_all, Nat.sub_diag. simpl.
  rewrite firstn_app, firstn_all, Nat.sub_diag. simpl. now rewrite app_nil_r.
Qed.

Lemma reverse_complement_app (complement : ascii -> ascii) (a b : str) :
  reverse_complement complement (a ++ b)
  = reverse_complement complement b ++ reverse_complement complement a.
Proof. unfold reverse_complement. now rewrite map_app, rev_app_distr. Qed.

(** X19. A read [pre ++ left ++ insert ++ right ++ post] in which the
    flanks around the insert are the first [left] and the first [right]
    of the read is scanned to [Found insert], for an insert of the
    expected size. *)
Theorem read_around_insert_is_found
    (pre ins post BCV_left BCV_right BCV_left_revcomp BCV_right_revcomp : str) :
  find (pre ++ BCV_left ++ ins ++ BCV_right ++ post) BCV_left None None
  = len pre ->
  find (pre ++ BCV_left ++ ins ++ BCV_right ++ post) BCV_right None None
  = len pre + len BCV_left + len ins ->
  scan (pre ++ BCV_left ++ ins ++ BCV_right ++ post) BCV_left BCV_right
    BCV_left_revcomp BCV_right_revcomp (len ins)
  = Found ins.
Proof.
  intros HB HA. rewrite first_step_wins; rewrite HA, HB; [|lia].
  f_equal. rewrite (app_assoc pre BCV_left).
  replace (len pre + len BCV_left) with (len (pre ++ BCV_left))
    by apply len_app.
  apply slice_middle.
Qed.

Lemma read_around_insert_is_found_witness :
  scan (py "CC" ++ py "GAC" ++ py "CACA" ++ py "AACC" ++ py "TT")
    (py "GAC") (py "AACC") (py "GGTT") (py "GTC") (len (py "CACA"))
  = Found (py "CACA").
Proof.
  apply read_around_insert_is_found; reflexivity.
Defined.

(** X20. The reverse complement of such a read, in which the
    reverse-complement flanks around the insert are the first ones and
    which the forward steps do not match, is scanned to [Found] of the
    reverse complement of the insert: an insert read from the other
    strand is returned as it stands in the read, complemented and
    reversed. *)
Theorem read_from_the_other_strand_is_found_complemented
    (complement : ascii -> ascii) (pre ins post BCV_left BCV_right : str) :
  scan_strand
    (reverse_complement complement
       (pre ++ BCV_left ++ ins ++ BCV_right ++ post))
    BCV_left BCV_right (len ins) = None ->
  find (reverse_complement complement
          (pre ++ BCV_left ++ ins ++ BCV_right ++ post))
    (reverse_complement complement BCV_right) None None
  = len post ->
  find (reverse_complement complement
          (pre ++ BCV_left ++ ins ++ BCV_right ++ post))
    (reverse_complement complement BCV_left) None None
  = len post + len BCV_right + len ins ->
  scan (reverse_complement complement
          (pre ++ BCV_left ++ ins ++ BCV_right ++ post))
    BCV_left BCV_right
    (reverse_complement complement BCV_right)
    (reverse_complement complement BCV_left) (len ins)
  = Found (reverse_complement complement ins).
Proof.
  intros Hfwd HE HD. rewrite scan_by_strands, Hfwd.
  unfold scan_strand. rewrite HD, HE, len_reverse_complement.
  replace (len post + len BCV_right + len ins - len post
           =? len ins + len BCV_right) with true
    by (symmetry; apply Z.eqb_eq; lia).
  f_equal.
  rewrite !reverse_complement_app, <- !app_assoc.
  rewrite (app_assoc (reverse_complement complement post)).
  replace (len post + len BCV_right)
    with (len (reverse_complement complement post
               ++ reverse_complement complement BCV_right))
    by (rewrite len_app, !len_reverse_complement; reflexivity).
  replace (len (reverse_complement complement post
                ++ reverse_complement complement BCV_right) + len ins)
    with (len (reverse_complement complement post
               ++ reverse_complement complement BCV_right)
          + len (reverse_complement complement ins))
    by (rewrite len_reverse_complement; reflexivity).
  apply slice_middle.
Qed.

Lemma read_from_the_other_strand_is_found_complemented_witness :
  scan (reverse_complement dna_complement
          (py "CC" ++ py "GAC" ++ py "CACA" ++ py "AACC" ++ py "TT"))
    (py "GAC") (py "AACC")
    (reverse_complement dna_complement (py "AACC"))
    (reverse_complement dna_complement (py "GAC")) (len (py "CACA"))
  = Found (reverse_complement dna_complement (py "CACA")).
Proof.
  apply read_from_the_other_strand_is_found_complemented; reflexivity.
Defined.

(** * The names of the output files *)

Lemma first_field_before_dot (a b : str) :
  no_dot a = true -> first_field "." (a ++ "."%char :: b) = a.
Proof.
  induction a as [|c a IH]; simpl; intros H; [reflexivity|].
  apply andb_true_iff in H. destruct H as [Hc Ha].
  apply negb_true_iff in Hc. rewrite Hc. now rewrite IH.
Qed.

(** X21. The log and the tables of an input file are named after what
    stands before the first dot of its name: two input files whose names
    differ only after the first dot are written to the same output
    files, the later one over the earlier one. *)
Theorem output_files_are_named_up_to_the_first_dot
    (out_dir stem ext1 ext2 : str) :
  no_dot stem = true ->
  log_output_file out_dir (stem ++ "."%char :: ext1)
  = log_output_file out_dir (stem ++ "."%char :: ext2)
  /\ variants_output_file out_dir (stem ++ "."%char :: ext1)
     = variants_output_file out_dir (stem ++ "."%char :: ext2)
  /\ contaminations_output_file out_dir (stem ++ "."%char :: ext1)
     = contaminations_output_file out_dir (stem ++ "."%char :: ext2)
  /\ PV_output_file out_dir (stem ++ "."%char :: ext1)
     = PV_output_file out_dir (stem ++ "."%char :: ext2)
  /\ log_output_file out_dir (stem ++ "."%char :: ext1)
     = out_dir ++ stem ++ py ".log.txt".
Proof.
  intros H.
  unfold log_output_file, variants_output_file, contaminations_output_file,
    PV_output_file.
  rewrite !first_field_before_dot by exact H. repeat split.
Qed.

Lemma output_files_are_named_up_to_the_first_dot_witness :
  log_output_file (py "out/") (py "sample" ++ "."%char :: py "R1.fastq.gz")
  = log_output_file (py "out/") (py "sample" ++ "."%char :: py "R2.fastq.gz")
  /\ variants_output_file (py "out/") (py "sample" ++ "."%char :: py "R1.fastq.gz")
     = variants_output_file (py "out/") (py "sample" ++ "."%char :: py "R2.fastq.gz")
  /\ contaminations_output_file (py "out/")
       (py "sample" ++ "."%char :: py "R1.fastq.gz")
     = contaminations_output_file (py "out/")
         (py "sample" ++ "."%char :: py "R2.fastq.gz")
  /\ PV_output_file (py "out/") (py "sample" ++ "."%char :: py "R1.fastq.gz")
     = PV_output_file (py "out/") (py "sample" ++ "."%char :: py "R2.fastq.gz")
  /\ log_output_file (py "out/") (py "sample" ++ "."%char :: py "R1.fastq.gz")
     = py "out/" ++ py "sample" ++ py ".log.txt".
Proof.
  apply output_files_are_named_up_to_the_first_dot. reflexivity.
Defined.

Lemma path_join_relative (a b : str) :
  a <> [] -> starts_with_slash b = false ->
  exists rest, path_join a b = a ++ rest.
Proof.
  intros Ha Hb. unfold path_join. rewrite Hb.
  destruct a; [congruence|]. destruct (ends_with_slash _); eauto.
Qed.

(** X22. The plots of [generate_plots] are named after what stands
    before the first dot of the whole path, the output directory
    included: when the output directory has a dot in its name, such as
    [./out], every input file has its plots written to the same file,
    named after the part of the output directory before that dot. *)
Theorem plots_file_is_cut_at_a_dot_of_the_directory
    (before after filename : str) :
  no_dot before = true -> starts_with_slash filename = false ->
  plots_file (before ++ "."%char :: after) filename
  = before ++ py "_Plots.pdf".
Proof.
  intros Hb Hf. unfold plots_file.
  destruct (path_join_relative (before ++ "."%char :: after) (py "quality_plots"))
    as (r1 & E1).
  { now destruct before. }
  { reflexivity. }
  rewrite E1.
  destruct (path_join_relative ((before ++ "."%char :: after) ++ r1) filename)
    as (r2 & E2).
  { now destruct before. }
  { exact Hf. }
  rewrite E2, <- !app_assoc. simpl.
  now rewrite first_field_before_dot.
Qed.

Lemma plots_file_is_cut_at_a_dot_of_the_directory_witness :
  plots_file ([] ++ "."%char :: py "/out") (py "sample.fastq.gz")
  = [] ++ py "_Plots.pdf".
Proof.
  apply plots_file_is_cut_at_a_dot_of_the_directory.
  - reflexivity.
  - reflexivity.
Defined.
